(** * filebackend: synthetic data-set generator

    A shallow embedding of the Express service of this repository and the
    properties of its core: the record-count estimator, the field and record
    synthesizers, the three streaming encoders with their drain-driven flow
    control, and the request validation of [POST /api/generate].

    The repository holds two variants of the server: [src/index.js] and a
    second file whose [generateField] dispatches on name patterns first.  The
    second one is the variant the definitions below follow; the [generateField]
    of [src/index.js] is embedded next to it as [generateField_index_rule].

    Conventions of the model.
    - A JavaScript string is the sequence of bytes of its UTF-8 encoding.
      The patterns of the rule table hold ASCII letters and [\b] only, so
      every byte outside [A-Za-z0-9_] is a non-word character for them.
    - Numbers are exact rationals ([Q]) in requests and integers ([Z]) in
      generated values: rounding of IEEE doubles is not part of the model, and
      the decimal text of a number is left to the built-in [Number_toString].
    - A record is a plain object: its own properties are a finite map from
      keys to values (the order of the keys is not modelled) and it has a
      prototype, which an assignment to the key [__proto__] addresses instead
      of an own property.
    - faker, uuid, [Math.random], [JSON.stringify] and the methods of [Date]
      and [Number] are external: they come in through the class [Libraries],
      threading the state of the pseudo-random source explicitly. *)

From Stdlib Require Import ZArith QArith Qround String Ascii List Bool Lia.
From stdpp Require Import base gmap strings list pretty.

#[local] Set Warnings "-clear-no-such-hyp".

Close Scope Q_scope.
Open Scope string_scope.
Open Scope list_scope.

(* ===================================================================== *)
(** ** Strings and the regular expressions of the rule table              *)
(* ===================================================================== *)

Module Js.

Definition code (c : ascii) : nat := nat_of_ascii c.

Definition is_upper (c : ascii) : bool :=
  Nat.leb 65 (code c) && Nat.leb (code c) 90.

Definition is_lower (c : ascii) : bool :=
  Nat.leb 97 (code c) && Nat.leb (code c) 122.

Definition is_digit (c : ascii) : bool :=
  Nat.leb 48 (code c) && Nat.leb (code c) 57.

(** [\w]: letters, digits and the underscore. *)
Definition is_word_char (c : ascii) : bool :=
  is_upper c || is_lower c || is_digit c || Nat.eqb (code c) 95.

Definition lower_char (c : ascii) : ascii :=
  if is_upper c then ascii_of_nat (code c + 32) else c.

(** Folding of the ASCII letters, byte by byte. *)
Fixpoint ascii_lower (s : string) : string :=
  match s with
  | EmptyString => EmptyString
  | String c s' => String (lower_char c) (ascii_lower s')
  end.

Definition is_ascii_char (c : ascii) : bool := Nat.ltb (code c) 128.

Fixpoint is_ascii (s : string) : bool :=
  match s with
  | EmptyString => true
  | String c s' => is_ascii_char c && is_ascii s'
  end.

Definition byte_is (n : nat) (c : ascii) : bool := Nat.eqb (code c) n.

(** [String.prototype.toLowerCase], up to the identity of the characters
    outside ASCII.  The ASCII letters are folded.  Two characters outside
    ASCII have a lower-case form with an ASCII letter in it: the Kelvin sign
    U+212A (bytes 226 132 170) becomes [k], and the dotted capital I U+0130
    (bytes 196 176) becomes [i] followed by the combining dot U+0307 (bytes
    204 135).  The lower-case form of any other character outside ASCII lies
    outside ASCII as well; such a character is kept as it is, which no
    comparison and no pattern below can tell from its lower-case form. *)
Fixpoint toLowerCase (s : string) : string :=
  match s with
  | EmptyString => EmptyString
  | String c1 s1 =>
      match s1 with
      | EmptyString => String (lower_char c1) EmptyString
      | String c2 s2 =>
          if byte_is 196 c1 && byte_is 176 c2 then
            String "i" (String (ascii_of_nat 204) (String (ascii_of_nat 135)
              (toLowerCase s2)))
          else
            match s2 with
            | EmptyString => String (lower_char c1) (toLowerCase s1)
            | String c3 s3 =>
                if byte_is 226 c1 && byte_is 132 c2 && byte_is 170 c3
                then String "k" (toLowerCase s3)
                else String (lower_char c1) (toLowerCase s1)
            end
      end
  end.

(** The ASCII white space [String.prototype.trim] removes. *)
Definition is_space (c : ascii) : bool :=
  (Nat.leb 9 (code c) && Nat.leb (code c) 13) || Nat.eqb (code c) 32.

(** The white space outside ASCII: U+00A0 in two bytes, and in three bytes
    U+1680, U+2000 to U+200A, U+2028, U+2029, U+202F, U+205F, U+3000 and
    U+FEFF. *)
Definition is_space2 (c1 c2 : ascii) : bool :=
  byte_is 194 c1 && byte_is 160 c2.

Definition is_space3 (c1 c2 c3 : ascii) : bool :=
  (byte_is 225 c1 && byte_is 154 c2 && byte_is 128 c3) ||
  (byte_is 226 c1 && byte_is 128 c2 &&
     ((Nat.leb 128 (code c3) && Nat.leb (code c3) 138) ||
      byte_is 168 c3 || byte_is 169 c3 || byte_is 175 c3)) ||
  (byte_is 226 c1 && byte_is 129 c2 && byte_is 159 c3) ||
  (byte_is 227 c1 && byte_is 128 c2 && byte_is 128 c3) ||
  (byte_is 239 c1 && byte_is 187 c2 && byte_is 191 c3).

(** The string holds white space only. *)
Fixpoint all_space (s : string) : bool :=
  match s with
  | EmptyString => true
  | String c1 s1 =>
      if is_space c1 then all_space s1
      else
        match s1 with
        | EmptyString => false
        | String c2 s2 =>
            if is_space2 c1 c2 then all_space s2
            else
              match s2 with
              | EmptyString => false
              | String c3 s3 => is_space3 c1 c2 c3 && all_space s3
              end
        end
  end.

(** [s.trim() === ''] *)
Definition trim_is_empty (s : string) : bool := all_space s.

(** One element of a pattern: the assertion [\b] or a literal character. *)
Inductive atom : Type :=
  | WordBoundary
  | Lit (c : ascii).

Definition pattern : Type := list atom.

(** A regular expression of the rule table: a list of alternatives. *)
Definition regex : Type := list pattern.

Definition is_word (o : option ascii) : bool :=
  match o with
  | Some c => is_word_char c
  | None => false
  end.

Definition head_char (s : string) : option ascii :=
  match s with
  | EmptyString => None
  | String c _ => Some c
  end.

(** Equality of characters under the [/i] flag. *)
Definition ci_eqb (c d : ascii) : bool :=
  Ascii.eqb (lower_char c) (lower_char d).

(** The pattern matches at the current position; [prev] is the character
    before it, if any. *)
Fixpoint match_here (p : pattern) (prev : option ascii) (s : string) : bool :=
  match p with
  | [] => true
  | WordBoundary :: p' =>
      xorb (is_word prev) (is_word (head_char s)) && match_here p' prev s
  | Lit c :: p' =>
      match s with
      | EmptyString => false
      | String d s' => ci_eqb c d && match_here p' (Some d) s'
      end
  end.

(** The pattern matches at some position of [s]. *)
Fixpoint search_from (p : pattern) (prev : option ascii) (s : string) : bool :=
  match_here p prev s ||
  match s with
  | EmptyString => false
  | String c s' => search_from p (Some c) s'
  end.

(** [re.test(s)] *)
Definition test (re : regex) (s : string) : bool :=
  existsb (fun p => search_from p None s) re.

Fixpoint lits (w : string) : pattern :=
  match w with
  | EmptyString => []
  | String c w' => Lit c :: lits w'
  end.

(** [\bw\b] *)
Definition word (w : string) : pattern :=
  WordBoundary :: lits w ++ [WordBoundary].

(** [Array.prototype.includes] on an array of strings. *)
Definition includes (l : list string) (s : string) : bool :=
  existsb (String.eqb s) l.

(** [Array.prototype.join] on strings. *)
Fixpoint join (sep : string) (l : list string) : string :=
  match l with
  | [] => ""
  | [x] => x
  | x :: rest => x +:+ sep +:+ join sep rest
  end.

End Js.

(* ===================================================================== *)
(** ** Record-count estimator                                             *)
(* ===================================================================== *)

(** [estimateRecordCount(fileSizeMB, averageRecordSize = 200)] *)
Definition estimateRecordCount (fileSizeMB : Q) (averageRecordSize : option Q) : Z :=
  let averageRecordSize := default (200 # 1)%Q averageRecordSize in
  let bytes := (fileSizeMB * (1024 # 1) * (1024 # 1))%Q in
  Qfloor (bytes / averageRecordSize)%Q.

(** The [switch (fileType)] that picks the average record size. *)
Definition averageRecordSizeOf (fileType : string) : Q :=
  if String.eqb fileType "csv" then (100 # 1)%Q
  else if String.eqb fileType "xml" then (300 # 1)%Q
  else (200 # 1)%Q.


(* ===================================================================== *)
(** ** Values, field specifications and the external generators           *)
(* ===================================================================== *)

(** What a record holds under a key.  [VDate] is a [Date] object (its time
    value in milliseconds): the only non-scalar the generators return. *)
Inductive value : Type :=
  | VString (s : string)
  | VNumber (n : Z)
  | VBoolean (b : bool)
  | VDate (ms : Z).

(** The scalars of the data model: string, number or boolean. *)
Definition is_scalar (v : value) : bool :=
  match v with
  | VString _ | VNumber _ | VBoolean _ => true
  | VDate _ => false
  end.

(** [typeof v === 'string'] *)
Definition is_string (v : value) : bool :=
  match v with
  | VString _ => true
  | _ => false
  end.

(** One entry of a schema. *)
Record FieldSpec : Type := {
  name : string;
  type : string;
  primaryKey : bool
}.

(** The string-valued calls into faker. *)
Inductive faker_text : Type :=
  | person_fullName
  | internet_email
  | phone_number
  | person_sexType
  | location_city
  | location_state
  | location_streetAddress
  | location_country
  | location_zipCode
  | company_name
  | string_uuid
  | finance_amount      (* faker.finance.amount(30000, 150000, 2, '$') *)
  | lorem_sentences     (* faker.lorem.sentences(2) *)
  | internet_url
  | image_avatar
  | lorem_word.

(** The expression a branch of [generateField] returns: the rule selected
    for a field. *)
Inductive generator : Type :=
  | Text (f : faker_text)                   (* faker.<f>() *)
  | EducationLevel                          (* getRandomEducationLevel() *)
  | Birthdate                               (* faker.date.birthdate() *)
  | NumberInt (lo hi : Z)                   (* faker.number.int({ min, max }) *)
  | DatatypeNumber (range : option (Z * Z)) (* faker.datatype.number(range) *)
  | DatatypeBoolean                         (* faker.datatype.boolean() *)
  | PastISO                                 (* faker.date.past().toISOString() *)
  | UuidV4                                  (* uuidv4() *)
  | EmptyText.                              (* '' *)

(** Shape of a version-4 UUID: 8-4-4-4-12 lower-case hexadecimal digits,
    version digit 4 and variant digit 8, 9, a or b. *)
Definition is_hex (c : ascii) : bool :=
  Js.is_digit c || (Nat.leb 97 (Js.code c) && Nat.leb (Js.code c) 102).

Definition is_variant (c : ascii) : bool :=
  Nat.eqb (Js.code c) 56 || Nat.eqb (Js.code c) 57 ||
  Nat.eqb (Js.code c) 97 || Nat.eqb (Js.code c) 98.

Definition uuid_char_ok (i : nat) (c : ascii) : bool :=
  if Nat.eqb i 8 || Nat.eqb i 13 || Nat.eqb i 18 || Nat.eqb i 23
  then Ascii.eqb c "-"
  else if Nat.eqb i 14 then Ascii.eqb c "4"
  else if Nat.eqb i 19 then is_variant c
  else is_hex c.

Fixpoint uuid_chars_ok (i : nat) (s : string) : bool :=
  match s with
  | EmptyString => Nat.eqb i 36
  | String c s' => uuid_char_ok i c && uuid_chars_ok (S i) s'
  end.

Definition is_uuid_v4 (s : string) : bool := uuid_chars_ok 0 s.

(** A record: a plain object created by the literal [{}].  [own] are its
    own properties.  [proto] is its prototype: [None] for [Object.prototype],
    which every record starts with, and [Some d] for a [Date] object with
    time value [d], the only object a generator returns. *)
Record jsobject : Type := {
  own : gmap string value;
  proto : option Z
}.

(** [{}] *)
Definition empty_object : jsobject := {| own := ∅; proto := None |}.

(** [record[key] = v].  The key [__proto__] is an accessor inherited from
    [Object.prototype]: its setter replaces the prototype when [v] is an
    object and does nothing when [v] is a primitive; no own property is
    created.  Every other key becomes or stays an own property. *)
Definition assign (key : string) (v : value) (record : jsobject) : jsobject :=
  if String.eqb key "__proto__" then
    match v with
    | VDate d => {| own := own record; proto := Some d |}
    | _ => record
    end
  else {| own := <[key := v]> (own record); proto := proto record |}.

(** What [record[key]] evaluates to: an own property, the prototype (for the
    key [__proto__]), or whatever the record inherits under a key it does not
    own. *)
Inductive reading : Type :=
  | Own (v : value)
  | Prototype (p : option Z)
  | Inherited (p : option Z) (key : string).

(** [record[key]] *)
Definition read (record : jsobject) (key : string) : reading :=
  if String.eqb key "__proto__" then Prototype (proto record)
  else
    match own record !! key with
    | Some v => Own v
    | None => Inherited (proto record) key
    end.

(* ===================================================================== *)
(** ** JSON texts                                                         *)
(* ===================================================================== *)

(** A recursive-descent reader of JSON texts without white space between
    tokens, the form [JSON.stringify] writes.  It tells whether a text is
    well formed and how many elements (members, for an object) its top level
    holds. *)
Module Json.

Definition is_hex_digit (c : ascii) : bool :=
  Js.is_digit c
  || (Nat.leb 97 (Js.code c) && Nat.leb (Js.code c) 102)
  || (Nat.leb 65 (Js.code c) && Nat.leb (Js.code c) 70).

Definition dquote : ascii := "034"%char.
Definition backslash : ascii := "092"%char.

(** After the backslash of an escape: one of the eight single-character
    escapes. *)
Definition is_escape (c : ascii) : bool :=
  Ascii.eqb c dquote || Ascii.eqb c backslash || Ascii.eqb c "/" ||
  Ascii.eqb c "b" || Ascii.eqb c "f" || Ascii.eqb c "n" || Ascii.eqb c "r" ||
  Ascii.eqb c "t".

(** Where the reader stands inside a string: between characters, after a
    backslash, or inside a [\u] escape with [more] hexadecimal digits to
    come after the next one. *)
Inductive string_state : Type :=
  | Plain
  | Escape
  | Hex (more : nat).

(** The text after the closing quote of the string whose opening quote was
    just read. *)
Fixpoint string_rest (st : string_state) (s : string) : option string :=
  match s with
  | EmptyString => None
  | String c r =>
      match st with
      | Plain =>
          if Ascii.eqb c dquote then Some r
          else if Ascii.eqb c backslash then string_rest Escape r
          else if Nat.ltb (Js.code c) 32 then None
          else string_rest Plain r
      | Escape =>
          if is_escape c then string_rest Plain r
          else if Ascii.eqb c "u" then string_rest (Hex 3) r
          else None
      | Hex more =>
          if is_hex_digit c then
            match more with
            | O => string_rest Plain r
            | S more' => string_rest (Hex more') r
            end
          else None
      end
  end.

(** The grammar of numbers: an optional minus, an integer part without a
    leading zero, an optional fraction, an optional exponent. *)
Inductive number_state : Type :=
  | NStart        (* nothing read *)
  | NMinus        (* the minus sign *)
  | NZero         (* the integer part 0 *)
  | NInt          (* an integer part that starts with 1 to 9 *)
  | NPoint        (* the decimal point *)
  | NFraction     (* digits of the fraction *)
  | NExponent     (* e or E *)
  | NSign         (* the sign of the exponent *)
  | NPower.       (* digits of the exponent *)

Definition is_e (c : ascii) : bool := Ascii.eqb c "e" || Ascii.eqb c "E".

Definition number_step (st : number_state) (c : ascii) : option number_state :=
  match st with
  | NStart =>
      if Ascii.eqb c "-" then Some NMinus
      else if Ascii.eqb c "0" then Some NZero
      else if Js.is_digit c then Some NInt
      else None
  | NMinus =>
      if Ascii.eqb c "0" then Some NZero
      else if Js.is_digit c then Some NInt
      else None
  | NZero =>
      if Ascii.eqb c "." then Some NPoint
      else if is_e c then Some NExponent
      else None
  | NInt =>
      if Js.is_digit c then Some NInt
      else if Ascii.eqb c "." then Some NPoint
      else if is_e c then Some NExponent
      else None
  | NPoint => if Js.is_digit c then Some NFraction else None
  | NFraction =>
      if Js.is_digit c then Some NFraction
      else if is_e c then Some NExponent
      else None
  | NExponent =>
      if Ascii.eqb c "+" || Ascii.eqb c "-" then Some NSign
      else if Js.is_digit c then Some NPower
      else None
  | NSign => if Js.is_digit c then Some NPower else None
  | NPower => if Js.is_digit c then Some NPower else None
  end.

Definition number_final (st : number_state) : bool :=
  match st with
  | NZero | NInt | NFraction | NPower => true
  | _ => false
  end.

(** The whole of [s] is a number. *)
Fixpoint is_number (st : number_state) (s : string) : bool :=
  match s with
  | EmptyString => number_final st
  | String c r =>
      match number_step st c with
      | Some st' => is_number st' r
      | None => false
      end
  end.

(** The characters a number is written with. *)
Definition is_number_char (c : ascii) : bool :=
  Js.is_digit c || Ascii.eqb c "-" || Ascii.eqb c "+" || Ascii.eqb c "."
  || is_e c.

(** The longest run of number characters [s] starts with, and what follows
    it. *)
Fixpoint span_number (s : string) : string * string :=
  match s with
  | EmptyString => (EmptyString, EmptyString)
  | String c r =>
      if is_number_char c then
        let '(token, rest) := span_number r in (String c token, rest)
      else (EmptyString, s)
  end.

Definition number (s : string) : option string :=
  let '(token, rest) := span_number s in
  if is_number NStart token then Some rest else None.

(** [s] without the prefix [p], if it starts with it. *)
Fixpoint strip_prefix (p s : string) : option string :=
  match p with
  | EmptyString => Some s
  | String c p' =>
      match s with
      | EmptyString => None
      | String d s' => if Ascii.eqb c d then strip_prefix p' s' else None
      end
  end.

(** A scalar: a string, one of the three literals, or a number, told apart
    by the first character. *)
Definition scalar (s : string) : option string :=
  match s with
  | EmptyString => None
  | String c r =>
      if Ascii.eqb c dquote then string_rest Plain r
      else if Ascii.eqb c "t" then strip_prefix "true" s
      else if Ascii.eqb c "f" then strip_prefix "false" s
      else if Ascii.eqb c "n" then strip_prefix "null" s
      else number s
  end.

(** What the reader is about to read: a value, the members of an object
    after its opening brace or a comma, the elements of an array after its
    opening bracket or a comma. *)
Inductive mode : Type :=
  | Value
  | Members
  | Elements.

(** The reader.  The result is the number of elements read at the top level
    (of the array or object for [Value], of the rest of the enclosing one for
    [Members] and [Elements]; none for a scalar) and the text that follows.
    [fuel] bounds the depth of the calls, which grows with the length of the
    text; with more fuel a result stays the same. *)
Fixpoint parse (fuel : nat) (m : mode) (s : string) : option (nat * string) :=
  match fuel with
  | O => None
  | S fuel' =>
      match m with
      | Value =>
          match s with
          | EmptyString => None
          | String c r =>
              if Ascii.eqb c "{" then
                match r with
                | EmptyString => None
                | String c' r' =>
                    if Ascii.eqb c' "}" then Some (O, r') else parse fuel' Members r
                end
              else if Ascii.eqb c "[" then
                match r with
                | EmptyString => None
                | String c' r' =>
                    if Ascii.eqb c' "]" then Some (O, r') else parse fuel' Elements r
                end
              else
                match scalar s with
                | Some rest => Some (O, rest)
                | None => None
                end
          end
      | Members =>
          match s with
          | EmptyString => None
          | String c r =>
              if Ascii.eqb c dquote then
                match string_rest Plain r with
                | Some (String c' r') =>
                    if Ascii.eqb c' ":" then
                      match parse fuel' Value r' with
                      | Some (_, String c'' r'') =>
                          if Ascii.eqb c'' "," then
                            match parse fuel' Members r'' with
                            | Some (n, rest) => Some (S n, rest)
                            | None => None
                            end
                          else if Ascii.eqb c'' "}" then Some (1, r'')
                          else None
                      | _ => None
                      end
                    else None
                | _ => None
                end
              else None
          end
      | Elements =>
          match parse fuel' Value s with
          | Some (_, String c r) =>
              if Ascii.eqb c "," then
                match parse fuel' Elements r with
                | Some (n, rest) => Some (S n, rest)
                | None => None
                end
              else if Ascii.eqb c "]" then Some (1, r)
              else None
          | _ => None
          end
      end
  end.

(** [s] is the text of one JSON value. *)
Definition well_formed (s : string) : Prop :=
  ∃ fuel n, parse fuel Value s = Some (n, "").

(** [s] is the text of one JSON object. *)
Definition object_text (s : string) : Prop :=
  (∃ r, s = String "{" r) ∧ well_formed s.

(** [s] is the text of a JSON array of [n] elements. *)
Definition array_of (n : nat) (s : string) : Prop :=
  (∃ r, s = String "[" r) ∧ ∃ fuel, parse fuel Value s = Some (n, "").

(** What may follow a value inside an array or an object, or nothing. *)
Definition closes (t : string) : bool :=
  match t with
  | EmptyString => true
  | String c _ => Ascii.eqb c "," || Ascii.eqb c "]" || Ascii.eqb c "}"
  end.

End Json.

(** The libraries the server calls.  [rng] is the state of the pseudo-random
    source; every generator consumes it and hands the next state back.
    [Date_toISOString], [Date_toString], [Number_toString] and
    [JSON_stringify] are the built-ins of the language; [inherited_text] is
    the text of what a record inherits under a key it does not own (a method
    of its prototype), if it inherits anything.  The three laws are the
    documented contracts of [faker.datatype.number] with a range, of [uuidv4]
    and of [JSON.stringify] on a plain object (one whose prototype is
    [Object.prototype]) that holds strings, numbers, booleans and dates: the
    result is the text of one JSON object. *)
Class Libraries : Type := {
  rng : Type;
  (** [Math.random()], as the numerator of a fraction over [2^53] *)
  Math_random : rng → Z * rng;
  faker_call : faker_text → rng → string * rng;
  faker_date_birthdate : rng → Z * rng;
  faker_date_past : rng → Z * rng;
  faker_number_int : Z → Z → rng → Z * rng;
  faker_datatype_number : option (Z * Z) → rng → Z * rng;
  faker_datatype_boolean : rng → bool * rng;
  uuidv4 : rng → string * rng;
  Date_toISOString : Z → string;
  Date_toString : Z → string;
  Number_toString : Z → string;
  JSON_stringify : jsobject → string;
  inherited_text : option Z → string → option string;
  faker_datatype_number_range :
    ∀ lo hi g, (lo ≤ hi)%Z →
      (lo ≤ (faker_datatype_number (Some (lo, hi)) g).1 ≤ hi)%Z;
  uuidv4_shape : ∀ g, is_uuid_v4 (uuidv4 g).1 = true;
  JSON_stringify_object :
    ∀ record, proto record = None → Json.object_text (JSON_stringify record)
}.

Definition educationLevels : list string := [
  "High School";
  "Associate Degree";
  "Bachelor's Degree";
  "Master's Degree";
  "Doctorate";
  "Ph D";
  "Professional Certification"
].

(* ===================================================================== *)
(** ** Synthesis rule table                                               *)
(* ===================================================================== *)

Module Rules.
Import Js.

Definition re_name : regex := [word "name"].
Definition re_email : regex := [word "email"].
(** [/\education\b/i]: [\e] is an identity escape, so the pattern is the
    letters of "education" followed by one word boundary. *)
Definition re_education : regex := [lits "education" ++ [WordBoundary]].
Definition re_phone : regex := [word "phone"; word "contact"].
Definition re_gender : regex := [word "gender"].
Definition re_city : regex := [word "city"].
Definition re_state : regex := [word "state"].
Definition re_address : regex := [word "address"].
Definition re_country : regex := [word "country"].
Definition re_zip : regex := [word "zip"; word "postal"].
Definition re_company : regex := [word "company"].
Definition re_date : regex := [word "date"; word "dob"].
Definition re_id : regex := [word "id"; word "uuid"].
Definition re_salary : regex := [word "salary"; word "income"].
Definition re_age : regex := [word "age"].
Definition re_description : regex := [word "description"; word "bio"].
Definition re_url : regex := [word "url"; word "website"].
Definition re_image : regex := [word "image"; word "avatar"].

(** The [switch (prop.type)] of the second variant. *)
Definition type_rule (t : string) : generator :=
  if String.eqb t "string" then Text lorem_word
  else if String.eqb t "number" then DatatypeNumber None
  else if String.eqb t "boolean" then DatatypeBoolean
  else if String.eqb t "date" then PastISO
  else if String.eqb t "address" then Text location_streetAddress
  else if String.eqb t "uuid" then Text string_uuid
  else EmptyText.

(** The branch [generateField] takes, second variant. *)
Definition generateField_rule (prop : FieldSpec) : generator :=
  let propNameLower := toLowerCase (name prop) in
  if test re_name propNameLower then Text person_fullName
  else if test re_email propNameLower then Text internet_email
  else if test re_education propNameLower then EducationLevel
  else if test re_phone propNameLower then Text phone_number
  else if test re_gender propNameLower then Text person_sexType
  else if test re_city propNameLower then Text location_city
  else if test re_state propNameLower then Text location_state
  else if test re_address propNameLower then Text location_streetAddress
  else if test re_country propNameLower then Text location_country
  else if test re_zip propNameLower then Text location_zipCode
  else if test re_company propNameLower then Text company_name
  else if test re_date propNameLower then Birthdate
  else if test re_id propNameLower then Text string_uuid
  else if test re_salary propNameLower then Text finance_amount
  else if test re_age propNameLower then NumberInt 18 80
  else if test re_description propNameLower then Text lorem_sentences
  else if test re_url propNameLower then Text internet_url
  else if test re_image propNameLower then Text image_avatar
  else type_rule (type prop).

(** The [switch (prop.type)] of [src/index.js]. *)
Definition type_rule_index (t : string) : generator :=
  if String.eqb t "string" then Text lorem_word
  else if String.eqb t "number" then DatatypeNumber None
  else if String.eqb t "boolean" then DatatypeBoolean
  else if String.eqb t "date" then PastISO
  else if String.eqb t "address" then Text location_streetAddress
  else if String.eqb t "uuid" then UuidV4
  else EmptyText.

(** The branch [generateField] of [src/index.js] takes. *)
Definition generateField_index_rule (prop : FieldSpec) : generator :=
  let propNameLower := toLowerCase (name prop) in
  if String.eqb propNameLower "name" && String.eqb (type prop) "string"
  then Text person_fullName
  else if String.eqb propNameLower "email" && String.eqb (type prop) "email"
  then Text internet_email
  else if String.eqb propNameLower "phone" && String.eqb (type prop) "phone"
  then Text phone_number
  else type_rule_index (type prop).

(** The name tier as a fixed list of rows, first match wins: the rows the
    chain of [generateField] tests, in its order. *)
Definition name_table : list (regex * generator) := [
  (re_name, Text person_fullName);
  (re_email, Text internet_email);
  (re_education, EducationLevel);
  (re_phone, Text phone_number);
  (re_gender, Text person_sexType);
  (re_city, Text location_city);
  (re_state, Text location_state);
  (re_address, Text location_streetAddress);
  (re_country, Text location_country);
  (re_zip, Text location_zipCode);
  (re_company, Text company_name);
  (re_date, Birthdate);
  (re_id, Text string_uuid);
  (re_salary, Text finance_amount);
  (re_age, NumberInt 18 80);
  (re_description, Text lorem_sentences);
  (re_url, Text internet_url);
  (re_image, Text image_avatar)
].

Fixpoint first_match (table : list (regex * generator)) (s : string) : option generator :=
  match table with
  | [] => None
  | (re, gen) :: rest => if test re s then Some gen else first_match rest s
  end.

(** The generator of the first row whose pattern the lower-cased name
    matches, if any. *)
Definition name_tier (prop : FieldSpec) : option generator :=
  first_match name_table (toLowerCase (name prop)).

(** The rule table as the specification words it: every row is a list of
    whole words, [\bw\b] for each, in the same priority order. *)
Definition whole_words (ws : list string) : regex := map word ws.

Definition spec_table : list (regex * generator) := [
  (whole_words ["name"], Text person_fullName);
  (whole_words ["email"], Text internet_email);
  (whole_words ["education"], EducationLevel);
  (whole_words ["phone"; "contact"], Text phone_number);
  (whole_words ["gender"], Text person_sexType);
  (whole_words ["city"], Text location_city);
  (whole_words ["state"], Text location_state);
  (whole_words ["address"], Text location_streetAddress);
  (whole_words ["country"], Text location_country);
  (whole_words ["zip"; "postal"], Text location_zipCode);
  (whole_words ["company"], Text company_name);
  (whole_words ["date"; "dob"], Birthdate);
  (whole_words ["id"; "uuid"], Text string_uuid);
  (whole_words ["salary"; "income"], Text finance_amount);
  (whole_words ["age"], NumberInt 18 80);
  (whole_words ["description"; "bio"], Text lorem_sentences);
  (whole_words ["url"; "website"], Text internet_url);
  (whole_words ["image"; "avatar"], Text image_avatar)
].

Definition spec_rule (prop : FieldSpec) : generator :=
  match first_match spec_table (toLowerCase (name prop)) with
  | Some gen => gen
  | None => type_rule (type prop)
  end.

(** When the two variants of [generateField] take the same branch. *)
Definition variants_agree (prop : FieldSpec) : Prop :=
  let lower := toLowerCase (name prop) in
  (lower = "name" ∧ type prop = "string") ∨
  (lower = "email" ∧ type prop = "email") ∨
  (lower = "phone" ∧ type prop = "phone") ∨
  (name_tier prop = Some (Text location_streetAddress) ∧ type prop = "address") ∨
  (name_tier prop = None ∧ type prop ≠ "uuid").

End Rules.

(** A name made of letters, digits and underscores only, such as
    [firstName] or [user_id]. *)
Fixpoint identifier_like (s : string) : bool :=
  match s with
  | EmptyString => true
  | String c s' => Js.is_word_char c && identifier_like s'
  end.

(** The words the patterns of the name tier are made of. *)
Definition keywords : list string := [
  "name"; "email"; "education"; "phone"; "contact"; "gender"; "city"; "state";
  "address"; "country"; "zip"; "postal"; "company"; "date"; "dob"; "id"; "uuid";
  "salary"; "income"; "age"; "description"; "bio"; "url"; "website"; "image";
  "avatar"
].

Section Synthesis.
Context `{Libraries}.

(** [getRandomEducationLevel]:
    [educationLevels[Math.floor(Math.random() * educationLevels.length)]];
    an index outside the array cannot arise, the default stands for it. *)
Definition getRandomEducationLevel (g : rng) : string * rng :=
  let '(r, g') := Math_random g in
  let randomIndex :=
    ((r `mod` 2 ^ 53) * Z.of_nat (length educationLevels) / 2 ^ 53)%Z in
  (nth (Z.to_nat randomIndex) educationLevels "", g').

(** Evaluation of the expression a branch returns. *)
Definition run (r : generator) (g : rng) : value * rng :=
  match r with
  | Text f => let '(s, g') := faker_call f g in (VString s, g')
  | EducationLevel => let '(s, g') := getRandomEducationLevel g in (VString s, g')
  | Birthdate => let '(d, g') := faker_date_birthdate g in (VDate d, g')
  | NumberInt lo hi => let '(n, g') := faker_number_int lo hi g in (VNumber n, g')
  | DatatypeNumber range =>
      let '(n, g') := faker_datatype_number range g in (VNumber n, g')
  | DatatypeBoolean => let '(b, g') := faker_datatype_boolean g in (VBoolean b, g')
  | PastISO => let '(d, g') := faker_date_past g in (VString (Date_toISOString d), g')
  | UuidV4 => let '(u, g') := uuidv4 g in (VString u, g')
  | EmptyText => (VString "", g)
  end.

(** [generateField] of the second variant and of [src/index.js]. *)
Definition generateField (prop : FieldSpec) (g : rng) : value * rng :=
  run (Rules.generateField_rule prop) g.

Definition generateField_index (prop : FieldSpec) (g : rng) : value * rng :=
  run (Rules.generateField_index_rule prop) g.

(* ===================================================================== *)
(** ** Record synthesizer                                                 *)
(* ===================================================================== *)

(** [properties.forEach((prop) => { record[prop.name] = generateField(prop) })] *)
Fixpoint forEach_field (gf : FieldSpec → rng → value * rng)
    (properties : list FieldSpec) (record : jsobject) (g : rng)
    : jsobject * rng :=
  match properties with
  | [] => (record, g)
  | prop :: rest =>
      let '(v, g') := gf prop g in
      forEach_field gf rest (assign (name prop) v record) g'
  end.

(** The primary-key block of [generateRecord]. *)
Definition override_primaryKey (properties : list FieldSpec)
    (record : jsobject) (g : rng) : jsobject * rng :=
  match List.find primaryKey properties with
  | Some primaryKeyProp =>
      if String.eqb (type primaryKeyProp) "number" then
        let '(v, g') := run (DatatypeNumber (Some (10, 1000000000000000000)%Z)) g in
        (assign (name primaryKeyProp) v record, g')
      else if String.eqb (type primaryKeyProp) "uuid"
              || String.eqb (type primaryKeyProp) "string" then
        let '(v, g') := run UuidV4 g in
        (assign (name primaryKeyProp) v record, g')
      else (record, g)
  | None => (record, g)
  end.

(** [generateRecord], over the [generateField] of either variant. *)
Definition generateRecord_with (gf : FieldSpec → rng → value * rng)
    (properties : list FieldSpec) (g : rng) : jsobject * rng :=
  let '(record, g') := forEach_field gf properties empty_object g in
  override_primaryKey properties record g'.

(** The field names of a schema, as a set of keys. *)
Definition names_of (properties : list FieldSpec) : gset string :=
  list_to_set (name <$> properties).

(** The keys a record can own: every field name but [__proto__]. *)
Definition own_names_of (properties : list FieldSpec) : gset string :=
  names_of properties ∖ {["__proto__"]}.

Definition generateRecord : list FieldSpec → rng → jsobject * rng :=
  generateRecord_with generateField.

Definition generateRecord_index : list FieldSpec → rng → jsobject * rng :=
  generateRecord_with generateField_index.

End Synthesis.

(* ===================================================================== *)
(** ** Wire formats                                                       *)
(* ===================================================================== *)

Module Wire.

Definition dquote : ascii := "034"%char.
Definition newline : ascii := "010"%char.
Definition comma : ascii := ","%char.

Definition nl : string := String newline EmptyString.
Definition dq : string := String dquote EmptyString.

(** [value.replace(re, twice)]: every double quote is written twice. *)
Fixpoint double_quotes (s : string) : string :=
  match s with
  | EmptyString => EmptyString
  | String c s' =>
      if Ascii.eqb c dquote
      then String dquote (String dquote (double_quotes s'))
      else String c (double_quotes s')
  end.

Definition is_special (c : ascii) : bool :=
  Ascii.eqb c dquote || Ascii.eqb c comma || Ascii.eqb c newline.

(** [value.search(re) >= 0], for the class of double quote, comma and
    newline. *)
Fixpoint has_special (s : string) : bool :=
  match s with
  | EmptyString => false
  | String c s' => is_special c || has_special s'
  end.

(** The escaping of [streamCSV] for a value with [typeof value === 'string']. *)
Definition csv_string (s : string) : string :=
  let value := double_quotes s in
  if has_special value then dq +:+ value +:+ dq else value.

End Wire.

Section Encoders.
Context `{Libraries}.
Import Wire.

(** Conversion of a value to text, as [join] and template literals do it. *)
Definition to_text (v : value) : string :=
  match v with
  | VString s => s
  | VNumber n => Number_toString n
  | VBoolean b => if b then "true" else "false"
  | VDate d => Date_toString d
  end.

(** The text of a prototype: [Object.prototype] or a [Date] object. *)
Definition prototype_text (p : option Z) : string :=
  match p with
  | None => "[object Object]"
  | Some d => Date_toString d
  end.

(** One cell of a CSV line: [record[prop.name]] after the escaping step,
    converted by [join].  Only a value with [typeof value === 'string'] is
    escaped; [join] writes nothing for [undefined]. *)
Definition csv_cell (r : reading) : string :=
  match r with
  | Own (VString s) => csv_string s
  | Own v => to_text v
  | Prototype p => prototype_text p
  | Inherited p key => default "" (inherited_text p key)
  end.

(** The header line of [streamCSV]. *)
Definition csv_headers (properties : list FieldSpec) : string :=
  Js.join "," (map name properties) +:+ nl.

(** [csvLine] *)
Definition csvLine (properties : list FieldSpec) (record : jsobject) : string :=
  Js.join "," (map (λ prop, csv_cell (read record (name prop))) properties) +:+ nl.

(** The chunk [streamJSON] writes for a record; [sentRecords] is the counter
    after its increment. *)
Definition jsonLine (record : jsobject) (sentRecords recordCount : nat) : string :=
  JSON_stringify record +:+ (if Nat.ltb sentRecords recordCount then "," else "").

(** [record[prop.name]] inside a template literal. *)
Definition xml_text (r : reading) : string :=
  match r with
  | Own v => to_text v
  | Prototype p => prototype_text p
  | Inherited p key => default "undefined" (inherited_text p key)
  end.

(** [xmlElement] *)
Definition xmlElement (properties : list FieldSpec) (record : jsobject) : string :=
  "  <record>" +:+ nl +:+
  fold_right (λ prop acc,
      "    <" +:+ name prop +:+ ">" +:+ xml_text (read record (name prop))
        +:+ "</" +:+ name prop +:+ ">" +:+ nl +:+ acc) "" properties +:+
  "  </record>" +:+ nl.

(** What differs between the three stream functions. *)
Record encoder : Type := {
  enc_headers : list (string * string);
  enc_prologue : list FieldSpec → string;
  enc_render : list FieldSpec → jsobject → nat → nat → string;
  enc_epilogue : option string
}.

Definition csv_encoder : encoder := {|
  enc_headers :=
    [("Content-Disposition", "attachment; filename=" +:+ dq +:+ "generated_file.csv" +:+ dq);
     ("Content-Type", "text/csv")];
  enc_prologue := csv_headers;
  enc_render := λ properties record _ _, csvLine properties record;
  enc_epilogue := None
|}.

Definition json_encoder : encoder := {|
  enc_headers :=
    [("Content-Disposition", "attachment; filename=" +:+ dq +:+ "generated_file.json" +:+ dq);
     ("Content-Type", "application/json")];
  enc_prologue := λ _, "[";
  enc_render := λ _ record sentRecords recordCount,
    jsonLine record sentRecords recordCount;
  enc_epilogue := Some "]"
|}.

Definition xml_prologue : string :=
  "<?xml version=" +:+ dq +:+ "1.0" +:+ dq +:+ " encoding=" +:+ dq +:+ "UTF-8" +:+ dq
    +:+ "?>" +:+ nl +:+ "<records>" +:+ nl.

Definition xml_encoder : encoder := {|
  enc_headers :=
    [("Content-Disposition", "attachment; filename=" +:+ dq +:+ "generated_file.xml" +:+ dq);
     ("Content-Type", "application/xml")];
  enc_prologue := λ _, xml_prologue;
  enc_render := λ properties record _ _, xmlElement properties record;
  enc_epilogue := Some "</records>"
|}.

(* ===================================================================== *)
(** ** Streaming with flow control                                        *)
(* ===================================================================== *)

(** What a stream function does to the response object, together with the
    variables the closure [generate] captures.  The headers the response
    carries before the call (those of the middleware) are not part of it:
    [setHeader_calls] records the calls of [res.setHeader] only. *)
Record Session : Type := {
  sentRecords : nat;
  random : rng;               (* state of the pseudo-random source *)
  setHeader_calls : list (string * string); (* arguments of res.setHeader, oldest first *)
  written : list string;      (* chunks given to res.write, oldest first *)
  flushes : nat;              (* calls of res.flush *)
  ended : bool;               (* res.end() was called *)
  drain_listener : bool       (* res.once('drain', generate) is pending *)
}.

(** The sink: [sink k] is what [res.write] returns for the chunk written after
    [k] earlier ones ([false]: at capacity); [has_flush] tells whether the
    response has a [flush] method. *)
Variable sink : nat → bool.
Variable has_flush : bool.

Variable e : encoder.
Variable properties : list FieldSpec.
Variable recordCount : nat.

(** The body of the [while] loop: synthesize, render, count, write, flush. *)
Definition loop_body (st : Session) : bool * Session :=
  let '(record, g') := generateRecord properties (random st) in
  let sent := S (sentRecords st) in
  let chunk := enc_render e properties record sent recordCount in
  let ok := sink (length (written st)) in
  (ok,
   {| sentRecords := sent;
      random := g';
      setHeader_calls := setHeader_calls st;
      written := written st ++ [chunk];
      flushes := if Nat.eqb (sent mod 1000) 0 && has_flush
                 then S (flushes st) else flushes st;
      ended := ended st;
      drain_listener := drain_listener st |}).

(** [while (sentRecords < recordCount && ok) { ... }]; every turn increments
    [sentRecords], so [recordCount - sentRecords] turns are enough. *)
Fixpoint while_loop (turns : nat) (ok : bool) (st : Session) : bool * Session :=
  match turns with
  | O => (ok, st)
  | S turns' =>
      if Nat.ltb (sentRecords st) recordCount && ok then
        let '(ok', st') := loop_body st in
        while_loop turns' ok' st'
      else (ok, st)
  end.

(** [res.once('drain', generate)] *)
Definition once_drain (st : Session) : Session :=
  {| sentRecords := sentRecords st; random := random st; setHeader_calls := setHeader_calls st;
     written := written st; flushes := flushes st; ended := ended st;
     drain_listener := true |}.

(** The chunks written after the last record. *)
Definition epilogue_chunks : list string :=
  match enc_epilogue e with
  | Some chunk => [chunk]
  | None => []
  end.

(** The epilogue, if the format has one, and [res.end()]. *)
Definition finish (st : Session) : Session :=
  {| sentRecords := sentRecords st; random := random st; setHeader_calls := setHeader_calls st;
     written := written st ++ epilogue_chunks;
     flushes := flushes st; ended := true;
     drain_listener := drain_listener st |}.

(** The closure [generate]. *)
Definition generate (st : Session) : Session :=
  let '(_, st') := while_loop (recordCount - sentRecords st) true st in
  if Nat.ltb (sentRecords st') recordCount then once_drain st' else finish st'.

(** The sink emits ['drain']: a pending one-shot listener is removed and run. *)
Definition on_drain (st : Session) : Session :=
  if drain_listener st then
    generate {| sentRecords := sentRecords st; random := random st;
                setHeader_calls := setHeader_calls st; written := written st;
                flushes := flushes st; ended := ended st;
                drain_listener := false |}
  else st.

(** The stream function up to its return: the two calls of [setHeader], the
    prologue, the first run of [generate]. *)
Definition stream (g : rng) : Session :=
  generate {| sentRecords := 0; random := g; setHeader_calls := enc_headers e;
              written := [enc_prologue e properties]; flushes := 0;
              ended := false; drain_listener := false |}.

(** The session after [k] drain events. *)
Fixpoint after_drains (k : nat) (g : rng) : Session :=
  match k with
  | O => stream g
  | S k' => on_drain (after_drains k' g)
  end.

(** The records of a session, in the order of synthesis: [records_from n g]
    are the first [n] and the state of the random source after them. *)
Fixpoint records_from (n : nat) (g : rng) : list jsobject * rng :=
  match n with
  | O => ([], g)
  | S n' =>
      let '(record, g') := generateRecord properties g in
      let '(rest, g'') := records_from n' g' in
      (record :: rest, g'')
  end.

(** The chunks of the [n] records after the first [start] ones, synthesized
    from the state [g] of the random source. *)
Fixpoint render_from (start n : nat) (g : rng) : list string :=
  match n with
  | O => []
  | S n' =>
      let '(record, g') := generateRecord properties g in
      enc_render e properties record (S start) recordCount
        :: render_from (S start) n' g'
  end.

(** State of the random source after [n] records. *)
Definition rng_after (n : nat) (g : rng) : rng := (records_from n g).2.

(** A session between two runs of [generate], for the seed [g0]: the records
    sent so far are the first ones of the seed, in order; nothing else was
    synthesized; and the session waits for ['drain'] exactly when records
    remain, which only happens after a write that reported capacity. *)
Definition quiescent (g0 : rng) (st : Session) : Prop :=
  (sentRecords st ≤ recordCount)%nat ∧
  random st = rng_after (sentRecords st) g0 ∧
  written st = enc_prologue e properties
    :: render_from 0 (sentRecords st) g0
    ++ (if ended st then epilogue_chunks else []) ∧
  drain_listener st = Nat.ltb (sentRecords st) recordCount ∧
  ended st = negb (Nat.ltb (sentRecords st) recordCount) ∧
  ((sentRecords st < recordCount)%nat →
     (0 < sentRecords st)%nat ∧ sink (sentRecords st) = false).

(** The number of calls of [flush] a session should have made: one per
    full thousand of records, if the response has the method. *)
Definition flushes_due (st : Session) : nat :=
  if has_flush then (sentRecords st / 1000)%nat else 0%nat.

(** How many of the writes of the records 1 to [n] report capacity. *)
Fixpoint capacity_reports (n : nat) : nat :=
  match n with
  | O => O
  | S n' => (capacity_reports n' + if sink n then 0 else 1)%nat
  end.

(** The session is parked after [n] records, waiting for ['drain']. *)
Definition suspended_at (st : Session) (n : nat) : Prop :=
  sentRecords st = n ∧ drain_listener st = true ∧ ended st = false.

End Encoders.

(** The body of a response: the chunks in the order of writing. *)
Fixpoint body (chunks : list string) : string :=
  match chunks with
  | [] => ""
  | chunk :: rest => chunk +:+ body rest
  end.



(** Reading back a CSV cell body: a doubled quote stands for one quote. *)
Fixpoint undouble (s : string) : string :=
  match s with
  | EmptyString => EmptyString
  | String c s' =>
      if Ascii.eqb c Wire.dquote then
        match s' with
        | String c' s'' =>
            if Ascii.eqb c' Wire.dquote then String c (undouble s'') else String c (undouble s')
        | EmptyString => String c EmptyString
        end
      else String c (undouble s')
  end.

(** All but the last character. *)
Fixpoint drop_last (s : string) : string :=
  match s with
  | EmptyString => EmptyString
  | String c s' =>
      match s' with
      | EmptyString => EmptyString
      | String _ _ => String c (drop_last s')
      end
  end.

(** Reading a cell back as a CSV reader does: a cell that opens with a quote
    is taken without its first and last character, doubled quotes undone; any
    other cell is taken as it stands. *)
Definition csv_read (cell : string) : string :=
  match cell with
  | EmptyString => EmptyString
  | String c rest =>
      if Ascii.eqb c Wire.dquote then undouble (drop_last rest) else cell
  end.

(* ===================================================================== *)
(** ** The route [POST /api/generate]                                     *)
(* ===================================================================== *)

Module Route.

(** A value of the parsed request body, as far as the handler inspects it. *)
Inductive jsval : Type :=
  | JUndefined
  | JNull
  | JBoolean (b : bool)
  | JNumber (q : Q)
  | JNaN
  | JString (s : string)
  | JObject.

(** An element of [properties] that is not [null]; a missing field is
    [JUndefined]. *)
Record RawProp : Type := {
  raw_name : jsval;
  raw_type : jsval;
  raw_primaryKey : jsval
}.

(** [properties]: anything that is not an array, or an array whose elements
    are objects or [null] ([None]). *)
Inductive raw_properties : Type :=
  | NotArray (v : jsval)
  | IsArray (elems : list (option RawProp)).

Record Request : Type := {
  fileType : jsval;
  fileSize : jsval;
  properties : raw_properties
}.

(** What the handler has done when it returns. *)
Inductive outcome {session : Type} : Type :=
  | Rejected (status : nat) (error : string)  (* res.status(status).json({ error }) *)
  | Streaming (st : session).                 (* a stream function was entered *)
Arguments outcome : clear implicits.

(** The chunks given to [res.write] by a stream function. *)
Definition stream_chunks {session : Type} (chunks : session → list string)
    (o : outcome session) : list string :=
  match o with
  | Rejected _ _ => []
  | Streaming st => chunks st
  end.

(** Truthiness, as [filter((prop) => prop.primaryKey)] tests it. *)
Definition truthy (v : jsval) : bool :=
  match v with
  | JUndefined | JNull | JNaN => false
  | JBoolean b => b
  | JNumber q => negb (Qeq_bool q 0)
  | JString s => negb (String.eqb s "")
  | JObject => true
  end.

Definition supportedTypes : list string := ["json"; "csv"; "xml"].

Definition validTypes : list string :=
  ["string"; "number"; "boolean"; "date"; "email"; "phone"; "address"; "uuid"].

(** [list.includes(v)] for a list of strings: strict equality. *)
Definition includes_val (l : list string) (v : jsval) : bool :=
  match v with
  | JString s => Js.includes l s
  | _ => false
  end.

(** The first condition on [fileSize]: not a number, [NaN], below 1 or above
    [maxFileSizeMB]. *)
Definition maxFileSizeMB : Q := (1000 # 1)%Q.

Definition bad_fileSize (v : jsval) : bool :=
  match v with
  | JNumber q =>
      negb (Qle_bool 1 q) || negb (Qle_bool q maxFileSizeMB)
  | _ => true
  end.

(** [properties.filter((prop) => prop.primaryKey)]; [None] is the
    [TypeError] of reading a field of [null]. *)
Fixpoint filter_primaryKey (elems : list (option RawProp)) : option (list RawProp) :=
  match elems with
  | [] => Some []
  | None :: _ => None
  | Some prop :: rest =>
      match filter_primaryKey rest with
      | None => None
      | Some keys => Some (if truthy (raw_primaryKey prop) then prop :: keys else keys)
      end
  end.

(** The condition of the [for (const prop of properties)] loop. *)
Definition bad_prop (prop : RawProp) : bool :=
  match raw_name prop with
  | JString s => Js.trim_is_empty s || negb (includes_val validTypes (raw_type prop))
  | _ => true
  end.

Definition text_of (v : jsval) : string :=
  match v with
  | JString s => s
  | _ => ""
  end.

(** The object the stream functions read: [name], [type] and the truth value
    of [primaryKey]. *)
Definition field_of (prop : RawProp) : FieldSpec :=
  {| name := text_of (raw_name prop);
     type := text_of (raw_type prop);
     primaryKey := truthy (raw_primaryKey prop) |}.

Definition present (elems : list (option RawProp)) : list RawProp :=
  omap id elems.

Definition msg_fileType : string := "Invalid fileType. Allowed types: json, csv, xml.".
Definition msg_fileSize : string := "fileSize must be a number between 1 and 1000 MB.".
Definition msg_properties : string := "properties must be a non-empty array.".
Definition msg_many_keys : string := "Only one property can be marked as primaryKey.".
Definition msg_no_key : string := "At least one property must be marked as primaryKey.".
Definition msg_prop : string :=
  "Each property must have a valid 'name' (non-empty string) and 'type' (string, number, boolean, date, email, phone, address, uuid).".
Definition msg_internal : string := "Internal Server Error.".
Definition msg_unsupported : string := "Unsupported fileType.".

(** The checks of the handler, in its order; the result is the error
    response or the validated [(fileType, fileSize, properties)]. *)
Definition validate (req : Request) : (nat * string) + (string * Q * list FieldSpec) :=
  if negb (includes_val supportedTypes (fileType req)) then inl (400, msg_fileType)
  else if bad_fileSize (fileSize req) then inl (400, msg_fileSize)
  else
    match properties req with
    | NotArray _ => inl (400, msg_properties)
    | IsArray elems =>
        if Nat.eqb (length elems) 0 then inl (400, msg_properties)
        else
          match filter_primaryKey elems with
          | None => inl (500, msg_internal)
          | Some primaryKeys =>
              if Nat.ltb 1 (length primaryKeys) then inl (400, msg_many_keys)
              else if Nat.eqb (length primaryKeys) 0 then inl (400, msg_no_key)
              else if existsb bad_prop (present elems) then inl (400, msg_prop)
              else
                match fileSize req with
                | JNumber q =>
                    inr (text_of (fileType req), q, map field_of (present elems))
                | _ => inl (400, msg_fileSize)
                end
          end
    end.

Section Handler.
Context `{Libraries}.
Variable sink : nat → bool.
Variable has_flush : bool.

Definition streamCSV (props : list FieldSpec) (recordCount : nat) (g : rng) : Session :=
  stream sink has_flush csv_encoder props recordCount g.

Definition streamJSON (props : list FieldSpec) (recordCount : nat) (g : rng) : Session :=
  stream sink has_flush json_encoder props recordCount g.

Definition streamXML (props : list FieldSpec) (recordCount : nat) (g : rng) : Session :=
  stream sink has_flush xml_encoder props recordCount g.

(** The handler up to its return. *)
Definition post_api_generate (req : Request) (g : rng) : outcome Session :=
  match validate req with
  | inl (status, error) => Rejected status error
  | inr (fileType, fileSize, props) =>
      let averageRecordSize := averageRecordSizeOf fileType in
      let estimatedRecords :=
        Z.to_nat (estimateRecordCount fileSize (Some averageRecordSize)) in
      if String.eqb fileType "json" then Streaming (streamJSON props estimatedRecords g)
      else if String.eqb fileType "csv" then Streaming (streamCSV props estimatedRecords g)
      else if String.eqb fileType "xml" then Streaming (streamXML props estimatedRecords g)
      else Rejected 400 msg_unsupported
  end.

End Handler.

(** The invalid requests, as the interface contract lists them. *)
Definition unsupported_format (req : Request) : Prop :=
  ∀ s, fileType req = JString s → s ∉ supportedTypes.

Definition size_out_of_range (req : Request) : Prop :=
  ∀ q, fileSize req = JNumber q → ¬ (1 <= q ∧ q <= 1000)%Q.

Definition schema_empty_or_not_array (req : Request) : Prop :=
  ∀ elems, properties req = IsArray elems → elems = [].

Definition marked_primaryKey (elem : option RawProp) : bool :=
  match elem with
  | Some prop => truthy (raw_primaryKey prop)
  | None => false
  end.

Definition primaryKey_count (req : Request) : nat :=
  match properties req with
  | IsArray elems => length (List.filter marked_primaryKey elems)
  | NotArray _ => 0
  end.

Definition invalid_field (elem : option RawProp) : Prop :=
  match elem with
  | Some prop =>
      (∀ s, raw_name prop = JString s → s = "") ∨
      (∀ t, raw_type prop = JString t → t ∉ validTypes)
  | None => True
  end.

Definition has_invalid_field (req : Request) : Prop :=
  ∃ elems elem, properties req = IsArray elems ∧ elem ∈ elems ∧ invalid_field elem.

Definition invalid_request (req : Request) : Prop :=
  unsupported_format req ∨ size_out_of_range req ∨
  schema_empty_or_not_array req ∨ primaryKey_count req ≠ 1 ∨
  has_invalid_field req.

End Route.

(* ===================================================================== *)
(** ** A deterministic instance of the libraries                          *)
(* ===================================================================== *)

(** Stand-ins for faker, uuid and the built-ins, with a counter as random
    source: they make the closed examples below computable.  Only the laws
    of [Libraries] are meant to hold of them. *)
Module Sample.

Definition sample_uuid : string := "00000000-0000-4000-8000-000000000000".

Definition sample_number (range : option (Z * Z)) (g : nat) : Z :=
  match range with
  | Some (lo, hi) =>
      if (lo <=? hi)%Z then (lo + Z.of_nat g `mod` (hi - lo + 1))%Z else lo
  | None => (Z.of_nat g `mod` 100000)%Z
  end.

Definition sample_text (f : faker_text) (g : nat) : string :=
  match f with
  | person_fullName => "Ada Lovelace"
  | internet_email => "ada@example.org"
  | location_streetAddress => "12 Main Street, Apt 4"
  | lorem_word => "lorem"
  | string_uuid => sample_uuid
  | _ => "text"
  end.

(** An object that only tells whether the record owns anything. *)
Definition sample_stringify (record : jsobject) : string :=
  match map_to_list (own record) with
  | [] => "{}"
  | _ :: _ => "{" +:+ Wire.dq +:+ "fields" +:+ Wire.dq +:+ ":true}"
  end.

Lemma sample_number_range (lo hi : Z) (g : nat) :
  (lo ≤ hi)%Z → (lo ≤ sample_number (Some (lo, hi)) g ≤ hi)%Z.
Proof.
  intros Hle. unfold sample_number.
  destruct (Z.leb_spec lo hi) as [_ | Hgt]; [| lia].
  pose proof (Z.mod_pos_bound (Z.of_nat g) (hi - lo + 1)). lia.
Qed.

Lemma sample_uuid_shape : is_uuid_v4 sample_uuid = true.
Proof. reflexivity. Qed.

Lemma sample_stringify_object (record : jsobject) :
  proto record = None → Json.object_text (sample_stringify record).
Proof.
  intros _. unfold sample_stringify.
  destruct (map_to_list (own record)).
  - split; [by eexists | by exists 1%nat, 0%nat].
  - split; [by eexists | by exists 3%nat, 1%nat].
Qed.

Definition libraries : Libraries := {|
  rng := nat;
  Math_random := λ g, (Z.of_nat g, S g);
  faker_call := λ f g, (sample_text f g, S g);
  faker_date_birthdate := λ g, (Z.of_nat g, S g);
  faker_date_past := λ g, (Z.of_nat g, S g);
  faker_number_int := λ lo hi g, (sample_number (Some (lo, hi)) g, S g);
  faker_datatype_number := λ range g, (sample_number range g, S g);
  faker_datatype_boolean := λ g, (Nat.even g, S g);
  uuidv4 := λ g, (sample_uuid, S g);
  Date_toISOString := λ d, pretty d;
  Date_toString := λ d, pretty d;
  Number_toString := λ n, pretty n;
  JSON_stringify := sample_stringify;
  inherited_text := λ _ _, None;
  faker_datatype_number_range := λ lo hi g, sample_number_range lo hi g;
  uuidv4_shape := λ _, sample_uuid_shape;
  JSON_stringify_object := sample_stringify_object
|}.

(** A schema with a uuid primary key and a name. *)
Definition id_field : FieldSpec :=
  {| name := "id"; type := "uuid"; primaryKey := true |}.
Definition name_field : FieldSpec :=
  {| name := "name"; type := "string"; primaryKey := false |}.
Definition dob_field : FieldSpec :=
  {| name := "dob"; type := "date"; primaryKey := false |}.
Definition schema : list FieldSpec := [id_field; name_field].

(** A numeric primary key named [__proto__]. *)
Definition proto_key : FieldSpec :=
  {| name := "__proto__"; type := "number"; primaryKey := true |}.

(** A sink that reports capacity on the write of record [n] only; the
    prologue is write 0. *)
Definition full_at (n : nat) : nat → bool := λ i, negb (Nat.eqb i n).

Definition field (n t : string) : FieldSpec :=
  {| name := n; type := t; primaryKey := false |}.

(** The Kelvin sign U+212A. *)
Definition kelvin : string :=
  String (ascii_of_nat 226) (String (ascii_of_nat 132) (String (ascii_of_nat 170) "")).

Definition address_schema : list FieldSpec :=
  [id_field; field "home address" "string"; field "n" "number"].

Definition raw_field (n t : string) (key : bool) : Route.RawProp :=
  {| Route.raw_name := Route.JString n;
     Route.raw_type := Route.JString t;
     Route.raw_primaryKey := Route.JBoolean key |}.

(** One megabyte of CSV for the sample schema. *)
Definition request : Route.Request :=
  {| Route.fileType := Route.JString "csv";
     Route.fileSize := Route.JNumber (1 # 1)%Q;
     Route.properties := Route.IsArray
       [Some (raw_field "id" "uuid" true); Some (raw_field "name" "string" false)] |}.




(** The same request with a second field whose name is two spaces. *)
Definition blank_request : Route.Request :=
  {| Route.fileType := Route.JString "csv";
     Route.fileSize := Route.JNumber (1 # 1)%Q;
     Route.properties := Route.IsArray
       [Some (raw_field "id" "uuid" true); Some (raw_field "  " "string" false)] |}.

End Sample.

(* ===================================================================== *)
(** ** Properties of the record-count estimator                           *)
(* ===================================================================== *)


Lemma estimate_floor (size avg : Q) :
  estimateRecordCount size (Some avg)
  = Qfloor (size * (1024 # 1) * (1024 # 1) / avg)%Q.
Proof. reflexivity. Qed.




(* ===================================================================== *)
(** ** Properties of the rule table                                       *)
(* ===================================================================== *)

Section RuleTable.
Import Js Rules.

(** The chain of tests in [generateField] is the first-match reading of
    [name_table], with the type switch as the second tier. *)
Lemma generateField_rule_tiers (prop : FieldSpec) :
  generateField_rule prop =
  match name_tier prop with
  | Some gen => gen
  | None => type_rule (type prop)
  end.
Proof.
  unfold generateField_rule, name_tier, name_table, first_match.
  repeat match goal with
         | |- context [if test ?re ?s then _ else _] => destruct (test re s)
         end; reflexivity.
Qed.

(** The selected rule depends on the name and the declared type only. *)
Lemma generateField_rule_deterministic (p q : FieldSpec) :
  name p = name q → type p = type q → generateField_rule p = generateField_rule q.
Proof. unfold generateField_rule. by intros -> ->. Qed.

(** The second tier ends in the empty string. *)
Lemma type_rule_fallback (t : string) :
  t ∉ ["string"; "number"; "boolean"; "date"; "address"; "uuid"] →
  type_rule t = EmptyText.
Proof.
  intros Hnot. unfold type_rule.
  repeat match goal with
         | |- context [String.eqb t ?c] =>
             destruct (String.eqb_spec t c) as [-> | _]; [exfalso; apply Hnot; set_solver |]
         end.
  reflexivity.
Qed.

(** Every row but the one for education is the whole-word pattern the
    specification names. *)
Lemma tables_differ_in_one_row :
  ∀ i row, i ≠ 2 → name_table !! i = Some row → spec_table !! i = Some row.
Proof.
  intros i row Hi.
  do 18 (destruct i as [| i]; [first [congruence | by intros [= <-]] |]).
  done.
Qed.

(** The selected rule differs from the whole-word reading only where the
    education row fires. *)
Lemma rule_differs_only_on_education (prop : FieldSpec) :
  generateField_rule prop ≠ spec_rule prop →
  generateField_rule prop = EducationLevel ∧
  test (whole_words ["education"]) (toLowerCase (name prop)) = false.
Proof.
  rewrite generateField_rule_tiers. unfold spec_rule, name_tier.
  set (s := toLowerCase (name prop)).
  unfold name_table, spec_table, first_match.
  change (whole_words ["name"]) with re_name.
  change (whole_words ["email"]) with re_email.
  destruct (test re_name s); [done |].
  destruct (test re_email s); [done |].
  destruct (test re_education s) eqn:Hcode;
    destruct (test (whole_words ["education"]) s) eqn:Hspec; [done | done | | done].
  exfalso.
  (* a whole-word match is a match of the pattern without the leading \b *)
  revert Hcode Hspec. unfold test, re_education, whole_words, word. simpl existsb.
  rewrite !orb_false_r.
  generalize (@None ascii). induction s as [| c s IH]; intros prev.
  - simpl. by rewrite andb_false_r.
  - simpl search_from. intros Hc Hs.
    apply orb_false_iff in Hc as [Hc1 Hc2].
    apply orb_true_iff in Hs as [Hs | Hs].
    + simpl in Hs. apply andb_true_iff in Hs as [_ Hs].
      simpl in Hc1. congruence.
    + by eapply IH.
Qed.

Lemma name_tier_name (prop : FieldSpec) :
  toLowerCase (name prop) = "name" → name_tier prop = Some (Text person_fullName).
Proof. unfold name_tier. by intros ->. Qed.

Lemma name_tier_email (prop : FieldSpec) :
  toLowerCase (name prop) = "email" → name_tier prop = Some (Text internet_email).
Proof. unfold name_tier. by intros ->. Qed.

Lemma name_tier_phone (prop : FieldSpec) :
  toLowerCase (name prop) = "phone" → name_tier prop = Some (Text phone_number).
Proof. unfold name_tier. by intros ->. Qed.

(** The generators of the name tier. *)
Lemma name_tier_range (prop : FieldSpec) (gen : generator) :
  name_tier prop = Some gen → gen ∈ (name_table).*2.
Proof.
  unfold name_tier. generalize (toLowerCase (name prop)). intros s.
  induction name_table as [| [re g] table IH]; simpl; [done |].
  destruct (test re s).
  - intros [= ->]. apply elem_of_cons. by left.
  - intros Hrest. apply elem_of_cons. right. by apply IH.
Qed.

Ltac case_type t :=
  repeat match goal with
         | |- context [String.eqb t ?c] => destruct (String.eqb_spec t c) as [-> | ?]
         | H : context [String.eqb t ?c] |- _ => destruct (String.eqb_spec t c) as [-> | ?]
         end.

(** The type switch of [src/index.js] returns the street-address generator
    for the type [address] only, and none of the other generators of the
    name tier. *)
Lemma type_rule_index_in_name_table (t : string) :
  type_rule_index t ∈ (name_table).*2 →
  t = "address" ∧ type_rule_index t = Text location_streetAddress.
Proof.
  unfold type_rule_index. case_type t; simpl; try done;
    intros Hin; exfalso; revert Hin;
    rewrite !elem_of_cons, elem_of_nil; intros Hin; decompose [or] Hin; done.
Qed.

Lemma type_rules_agree (t : string) :
  type_rule_index t = type_rule t ↔ t ≠ "uuid".
Proof.
  unfold type_rule_index, type_rule. case_type t; simpl; split; try done.
Qed.

(** C4 (defect): the field name "coeducation" is no whole word of the table,
    so the declared type should decide (a random word for [string]); the code
    takes the branch of the education levels, because its pattern for
    education carries no leading word boundary. *)
Theorem education_pattern_matches_inside_words :
  generateField_rule {| name := "coeducation"; type := "string"; primaryKey := false |}
    = EducationLevel ∧
  spec_rule {| name := "coeducation"; type := "string"; primaryKey := false |}
    = Text lorem_word.
Proof. split; vm_compute; reflexivity. Qed.

(** C9 (counterexample): for a string field called "city" the variant of
    [src/index.js] takes the branch of the random word and the other variant
    the branch of the city names. *)
Lemma variants_differ_on_city :
  generateField_index_rule {| name := "city"; type := "string"; primaryKey := false |}
    = Text lorem_word ∧
  generateField_rule {| name := "city"; type := "string"; primaryKey := false |}
    = Text location_city ∧
  generateField_index_rule {| name := "city"; type := "string"; primaryKey := false |}
    ≠ generateField_rule {| name := "city"; type := "string"; primaryKey := false |}.
Proof. split; [| split]; vm_compute; [reflexivity | reflexivity | discriminate]. Qed.

(** C9 (amended): the two variants of [generateField] take the same branch
    exactly in the cases of [variants_agree]: the three pairs that
    [src/index.js] singles out (name/string, email/email, phone/phone), an
    address-typed field whose name selects the street address, and a field
    whose name matches no pattern and whose type is not [uuid]. *)
Theorem variants_agree_iff (prop : FieldSpec) :
  generateField_index_rule prop = generateField_rule prop ↔ variants_agree prop.
Proof.
  rewrite generateField_rule_tiers.
  unfold variants_agree, generateField_index_rule. cbv zeta.
  pose proof (name_tier_name prop) as Hname.
  pose proof (name_tier_email prop) as Hemail.
  pose proof (name_tier_phone prop) as Hphone.
  pose proof (name_tier_range prop) as Hrange.
  set (lower := toLowerCase (name prop)) in *.
  set (t := type prop) in *.
  destruct (String.eqb_spec lower "name") as [Hl1 | Hl1].
  { rewrite (Hname Hl1), Hl1.
    destruct (String.eqb_spec t "string") as [Ht | Ht]; simpl.
    - split; [intros _; by left | done].
    - split.
      + intros Heq. destruct (type_rule_index_in_name_table t) as [_ Hr].
        { rewrite Heq. set_solver. }
        rewrite Hr in Heq. done.
      + intros [[_ ?] | [[? _] | [[? _] | [[? _] | [? _]]]]]; done. }
  destruct (String.eqb_spec lower "email") as [Hl2 | Hl2].
  { rewrite (Hemail Hl2), Hl2.
    destruct (String.eqb_spec t "email") as [Ht | Ht]; simpl.
    - split; [intros _; right; by left | done].
    - split.
      + intros Heq. destruct (type_rule_index_in_name_table t) as [_ Hr].
        { rewrite Heq. set_solver. }
        rewrite Hr in Heq. done.
      + intros [[? _] | [[_ ?] | [[? _] | [[? _] | [? _]]]]]; done. }
  destruct (String.eqb_spec lower "phone") as [Hl3 | Hl3].
  { rewrite (Hphone Hl3), Hl3.
    destruct (String.eqb_spec t "phone") as [Ht | Ht]; simpl.
    - split; [intros _; right; right; by left | done].
    - split.
      + intros Heq. destruct (type_rule_index_in_name_table t) as [_ Hr].
        { rewrite Heq. set_solver. }
        rewrite Hr in Heq. done.
      + intros [[? _] | [[? _] | [[_ ?] | [[? _] | [? _]]]]]; done. }
  simpl. destruct (name_tier prop) as [gen |] eqn:Htier.
  - split.
    + intros Heq. destruct (type_rule_index_in_name_table t) as [Ht Hr].
      { rewrite Heq. by apply Hrange. }
      right; right; right; left. split; [| exact Ht]. congruence.
    + intros [[? _] | [[? _] | [[? _] | [[[= ->] ->] | [? _]]]]]; done.
  - rewrite type_rules_agree. split.
    + intros Hne. by repeat right.
    + intros [[? _] | [[? _] | [[? _] | [[? _] | [_ ?]]]]]; done.
Qed.

End RuleTable.
(* ===================================================================== *)
(** ** Properties of the record synthesizer                               *)
(* ===================================================================== *)

Section Objects.

Lemma own_assign (key : string) (v : value) (record : jsobject) :
  key ≠ "__proto__" → own (assign key v record) = <[key := v]> (own record).
Proof. intros Hkey. unfold assign. by destruct (String.eqb_spec key "__proto__"). Qed.

(** An assignment to [__proto__] creates no own property. *)
Lemma own_assign_proto (v : value) (record : jsobject) :
  own (assign "__proto__" v record) = own record.
Proof. unfold assign. simpl. by destruct v. Qed.

Lemma lookup_assign_eq (key : string) (v : value) (record : jsobject) :
  key ≠ "__proto__" → own (assign key v record) !! key = Some v.
Proof. intros Hkey. by rewrite own_assign, lookup_insert_eq. Qed.

Lemma lookup_assign_ne (key : string) (v : value) (record : jsobject) (k : string) :
  k ≠ key → own (assign key v record) !! k = own record !! k.
Proof.
  intros Hk. destruct (decide (key = "__proto__")) as [-> | Hkey].
  - by rewrite own_assign_proto.
  - by rewrite own_assign, lookup_insert_ne.
Qed.

Lemma dom_own_assign (key : string) (v : value) (record : jsobject) :
  dom (own (assign key v record)) = dom (own record) ∪ ({[key]} ∖ {["__proto__"]}).
Proof.
  destruct (decide (key = "__proto__")) as [-> | Hkey].
  - rewrite own_assign_proto. set_solver.
  - rewrite own_assign, dom_insert_L by done. set_solver.
Qed.

(** Only a [Date] assigned to [__proto__] replaces the prototype. *)
Lemma proto_assign (key : string) (v : value) (record : jsobject) :
  key ≠ "__proto__" ∨ is_scalar v = true →
  proto (assign key v record) = proto record.
Proof.
  intros Hcase. unfold assign.
  destruct (String.eqb_spec key "__proto__") as [-> | Hkey]; [| done].
  destruct Hcase as [? | Hv]; [done |]. by destruct v.
Qed.


End Objects.

Section RecordSynthesizer.
Context `{Libraries}.
Variable gf : FieldSpec → rng → value * rng.

(** Only the birth-date generator returns something that is no scalar. *)
Lemma run_scalar (r : generator) (g : rng) :
  r ≠ Birthdate → is_scalar (run r g).1 = true.
Proof.
  intros Hr. destruct r; simpl; try done.
  - by destruct (faker_call f g).
  - by destruct (getRandomEducationLevel g).
  - by destruct (faker_number_int lo hi g).
  - by destruct (faker_datatype_number range g).
  - by destruct (faker_datatype_boolean g).
  - by destruct (faker_date_past g).
  - by destruct (uuidv4 g).
Qed.

(** The own keys after the [forEach]: those before it and the field names
    other than [__proto__]. *)
Lemma forEach_field_dom (properties : list FieldSpec) (record : jsobject) (g : rng) :
  dom (own (forEach_field gf properties record g).1)
  = dom (own record) ∪ own_names_of properties.
Proof.
  revert record g. induction properties as [| prop rest IH]; intros record g; simpl.
  - unfold own_names_of, names_of. simpl. set_solver.
  - destruct (gf prop g) as [v g']. rewrite IH, dom_own_assign.
    unfold own_names_of, names_of. simpl. set_solver.
Qed.

(** The [forEach] leaves alone a key that is no field name. *)
Lemma forEach_field_frame (properties : list FieldSpec) (record : jsobject)
    (g : rng) (key : string) :
  key ∉ name <$> properties →
  own (forEach_field gf properties record g).1 !! key = own record !! key.
Proof.
  revert record g. induction properties as [| p rest IH]; intros record g Hfresh; simpl.
  - done.
  - destruct (gf p g) as [v g']. rewrite fmap_cons in Hfresh.
    apply not_elem_of_cons in Hfresh as [Hne Hrest].
    rewrite IH by done. by rewrite lookup_assign_ne.
Qed.

(** What the [forEach] stores under a field name other than [__proto__] was
    generated for a field of that name. *)
Lemma forEach_field_lookup (properties : list FieldSpec) (record : jsobject)
    (g : rng) (prop : FieldSpec) :
  prop ∈ properties → name prop ≠ "__proto__" →
  ∃ q g', q ∈ properties ∧ name q = name prop ∧
    own (forEach_field gf properties record g).1 !! name prop = Some (gf q g').1.
Proof.
  revert record g prop.
  induction properties as [| p rest IH]; intros record g prop Hin Hkey.
  - by apply elem_of_nil in Hin.
  - simpl. destruct (gf p g) as [v g'] eqn:Hgf.
    destruct (decide (name prop ∈ name <$> rest)) as [Hlater | Hfresh].
    + apply list_elem_of_fmap in Hlater as (p' & Hname & Hp').
      rewrite Hname in Hkey.
      destruct (IH (assign (name p) v record) g' p' Hp' Hkey)
        as (q & g'' & Hq & Hname' & Hlook).
      exists q, g''. split; [by apply elem_of_cons; right |].
      rewrite Hname. split; [congruence | done].
    + apply elem_of_cons in Hin as [-> | Hin].
      2: { exfalso. apply Hfresh, list_elem_of_fmap. by exists prop. }
      exists p, g. split; [by apply elem_of_cons; left |]. split; [done |].
      rewrite Hgf. simpl.
      rewrite forEach_field_frame; [by rewrite lookup_assign_eq | done].
Qed.

(** The [forEach] replaces the prototype only with a [Date] generated for a
    field named [__proto__]. *)
Lemma forEach_field_proto (properties : list FieldSpec) (record : jsobject) (g : rng) :
  (∀ prop g', prop ∈ properties → name prop = "__proto__" →
     is_scalar (gf prop g').1 = true) →
  proto (forEach_field gf properties record g).1 = proto record.
Proof.
  revert record g. induction properties as [| p rest IH]; intros record g Hgf; simpl.
  - done.
  - pose proof (Hgf p g) as Hp. destruct (gf p g) as [v g'].
    rewrite IH.
    + apply proto_assign. destruct (decide (name p = "__proto__")) as [Hname | Hname].
      * right. apply Hp; [by apply elem_of_cons; left | done].
      * by left.
    + intros prop g'' Hin. apply Hgf. by apply elem_of_cons; right.
Qed.

(** With a single primary key, [find] returns it. *)
Lemma find_single_primaryKey (properties : list FieldSpec) (pk : FieldSpec) :
  List.filter primaryKey properties = [pk] →
  List.find primaryKey properties = Some pk ∧ pk ∈ properties.
Proof.
  induction properties as [| p rest IH]; simpl; [done |].
  destruct (primaryKey p) eqn:Hp.
  - intros [= -> _]. split; [done | by apply elem_of_cons; left].
  - intros Hrest. destruct (IH Hrest) as [Hfind Hin].
    split; [done | by apply elem_of_cons; right].
Qed.

(** Without a primary key, [find] returns [undefined]. *)
Lemma find_no_primaryKey (properties : list FieldSpec) :
  (∀ prop, prop ∈ properties → primaryKey prop = false) →
  List.find primaryKey properties = None.
Proof.
  induction properties as [| p rest IH]; intros Hall; simpl; [done |].
  rewrite (Hall p) by (apply elem_of_cons; by left).
  apply IH. intros prop Hin. apply Hall. by apply elem_of_cons; right.
Qed.

(** The primary-key block adds no own key that is not a field name. *)
Lemma override_primaryKey_dom (properties : list FieldSpec) (record : jsobject) (g : rng) :
  own_names_of properties ⊆ dom (own record) →
  dom (own (override_primaryKey properties record g).1) = dom (own record).
Proof.
  intros Hsub. unfold override_primaryKey.
  destruct (List.find primaryKey properties) as [pk |] eqn:Hfind; [| done].
  assert (Hpk : {[name pk]} ∖ {["__proto__"]} ⊆ dom (own record)).
  { intros key [Hkey Hne]%elem_of_difference. apply elem_of_singleton in Hkey as ->.
    apply Hsub. unfold own_names_of, names_of.
    apply elem_of_difference. split; [| done].
    apply elem_of_list_to_set, list_elem_of_fmap.
    exists pk. split; [done |]. apply list_elem_of_In. by apply find_some in Hfind as [? _]. }
  destruct (String.eqb (type pk) "number").
  - destruct (run _ g) as [v g']. simpl. rewrite dom_own_assign. set_solver.
  - destruct (String.eqb (type pk) "uuid" || String.eqb (type pk) "string"); [| done].
    destruct (run _ g) as [v g']. simpl. rewrite dom_own_assign. set_solver.
Qed.

(** The primary-key block assigns primitives: the prototype stays. *)
Lemma override_primaryKey_proto (properties : list FieldSpec) (record : jsobject) (g : rng) :
  proto (override_primaryKey properties record g).1 = proto record.
Proof.
  unfold override_primaryKey.
  destruct (List.find primaryKey properties) as [pk |]; [| done].
  destruct (String.eqb (type pk) "number").
  - pose proof (run_scalar (DatatypeNumber (Some (10, 1000000000000000000)%Z)) g
                  ltac:(done)) as Hv.
    destruct (run _ g) as [v g']. simpl. apply proto_assign. by right.
  - destruct (String.eqb (type pk) "uuid" || String.eqb (type pk) "string"); [| done].
    pose proof (run_scalar UuidV4 g ltac:(done)) as Hv.
    destruct (run _ g) as [v g']. simpl. apply proto_assign. by right.
Qed.

(** The own keys of a synthesized record are the field names of the schema
    other than [__proto__]. *)
Lemma generateRecord_keys (properties : list FieldSpec) (g : rng) :
  dom (own (generateRecord_with gf properties g).1) = own_names_of properties.
Proof.
  unfold generateRecord_with.
  pose proof (forEach_field_dom properties empty_object g) as Hdom.
  destruct (forEach_field gf properties empty_object g) as [record g']. simpl in Hdom.
  rewrite override_primaryKey_dom; rewrite Hdom; set_solver.
Qed.

(** The prototype of a synthesized record is [Object.prototype], unless the
    field synthesizer returns a [Date] for a field named [__proto__]. *)
Lemma generateRecord_with_proto (properties : list FieldSpec) (g : rng) :
  (∀ prop g', prop ∈ properties → name prop = "__proto__" →
     is_scalar (gf prop g').1 = true) →
  proto (generateRecord_with gf properties g).1 = None.
Proof.
  intros Hgf. unfold generateRecord_with.
  pose proof (forEach_field_proto properties empty_object g Hgf) as Hproto.
  destruct (forEach_field gf properties empty_object g) as [record g'].
  by rewrite override_primaryKey_proto.
Qed.

(** What the primary-key block assigns to [__proto__] is a primitive: the
    record is the one the [forEach] left. *)
Lemma override_primaryKey_named_proto (properties : list FieldSpec) (pk : FieldSpec)
    (record : jsobject) (g : rng) :
  List.find primaryKey properties = Some pk → name pk = "__proto__" →
  (override_primaryKey properties record g).1 = record.
Proof.
  intros Hfind Hname. unfold override_primaryKey. rewrite Hfind, Hname.
  destruct (String.eqb (type pk) "number").
  - simpl. by destruct (faker_datatype_number _ g).
  - destruct (String.eqb (type pk) "uuid" || String.eqb (type pk) "string"); [| done].
    simpl. by destruct (uuidv4 g).
Qed.

(** C3: with exactly one primary key in the schema, named otherwise than
    [__proto__], the record holds under its name a value chosen by its
    declared type alone, whatever the field synthesizer [gf] stored there:
    for [number] the result of [faker.datatype.number] with the range 10 to
    10^18, an integer of that range; for [uuid] and [string] the result of
    [uuidv4()], of version-4 shape; for any other type the record and the
    random source are those the [forEach] left.  No other key changes. *)
Theorem primaryKey_override (properties : list FieldSpec) (pk : FieldSpec) (g : rng) :
  List.filter primaryKey properties = [pk] →
  name pk ≠ "__proto__" →
  let before := forEach_field gf properties empty_object g in
  let after := generateRecord_with gf properties g in
  (type pk = "number" →
     ∃ n, own after.1 !! name pk = Some (VNumber n) ∧
          (10 ≤ n ≤ 10 ^ 18)%Z ∧
          (n, after.2) = faker_datatype_number (Some (10, 10 ^ 18)%Z) before.2) ∧
  (type pk = "uuid" ∨ type pk = "string" →
     ∃ u, own after.1 !! name pk = Some (VString u) ∧
          is_uuid_v4 u = true ∧
          (u, after.2) = uuidv4 before.2) ∧
  (type pk ≠ "number" → type pk ≠ "uuid" → type pk ≠ "string" → after = before) ∧
  (∀ key, key ≠ name pk → own after.1 !! key = own before.1 !! key) ∧
  proto after.1 = proto before.1.
Proof.
  intros Hone Hname. destruct (find_single_primaryKey _ _ Hone) as [Hfind _].
  cbv zeta. unfold generateRecord_with.
  pose proof (override_primaryKey_proto properties
                (forEach_field gf properties empty_object g).1
                (forEach_field gf properties empty_object g).2) as Hproto.
  destruct (forEach_field gf properties empty_object g) as [record g0].
  cbn [fst snd] in *. revert Hproto.
  unfold override_primaryKey. rewrite Hfind.
  destruct (String.eqb_spec (type pk) "number") as [Hnum | Hnum].
  - change 1000000000000000000%Z with (10 ^ 18)%Z. simpl run.
    pose proof (faker_datatype_number_range 10 (10 ^ 18) g0) as Hrange.
    destruct (faker_datatype_number (Some (10, 10 ^ 18)%Z) g0) as [n g1].
    cbn [fst snd] in *. intros Hproto.
    repeat split.
    + intros _. exists n. rewrite lookup_assign_eq by done. repeat split; lia.
    + intros [Hty | Hty]; rewrite Hnum in Hty; done.
    + done.
    + intros key Hkey. by rewrite lookup_assign_ne.
    + done.
  - destruct (String.eqb_spec (type pk) "uuid") as [Huuid | Huuid];
      [| destruct (String.eqb_spec (type pk) "string") as [Hstr | Hstr]]; simpl.
    1, 2: pose proof (uuidv4_shape g0) as Hshape;
      destruct (uuidv4 g0) as [u g1]; cbn [fst snd] in *; intros Hproto;
      (repeat split;
        [ done
        | intros _; exists u; by rewrite lookup_assign_eq
        | done
        | intros key Hkey; by rewrite lookup_assign_ne
        | done ]).
    intros _. repeat split; try done. by intros [? | ?].
Qed.

(** C10: without a primary key in the schema the primary-key block does
    nothing; [generateRecord] returns what the [forEach] built, a record whose
    own keys are the field names other than [__proto__], each holding a value
    the field synthesizer generated for a field of that name. *)
Theorem no_primaryKey_no_override (properties : list FieldSpec) (g : rng) :
  (∀ prop, prop ∈ properties → primaryKey prop = false) →
  generateRecord_with gf properties g = forEach_field gf properties empty_object g ∧
  dom (own (generateRecord_with gf properties g).1)
    = names_of properties ∖ {["__proto__"]} ∧
  (∀ prop, prop ∈ properties → name prop ≠ "__proto__" →
     ∃ q g', q ∈ properties ∧ name q = name prop ∧
       own (generateRecord_with gf properties g).1 !! name prop = Some (gf q g').1).
Proof.
  intros Hnone.
  assert (Heq : generateRecord_with gf properties g
                = forEach_field gf properties empty_object g).
  { unfold generateRecord_with.
    destruct (forEach_field gf properties empty_object g) as [record g0].
    unfold override_primaryKey. by rewrite find_no_primaryKey. }
  split; [exact Heq |]. split; [apply generateRecord_keys |].
  intros prop Hin Hname. rewrite Heq. by apply forEach_field_lookup.
Qed.

End RecordSynthesizer.

Section GeneratedRecords.
Context `{Libraries}.

(** A field named [__proto__] matches no pattern: its type selects the
    generator, which is never the birth date. *)
Lemma generateField_named_proto (prop : FieldSpec) (g : rng) :
  name prop = "__proto__" → is_scalar (generateField prop g).1 = true.
Proof.
  intros Hname. unfold generateField. apply run_scalar.
  rewrite generateField_rule_tiers.
  assert (Htier : Rules.name_tier prop = None).
  { unfold Rules.name_tier. rewrite Hname. by vm_compute. }
  rewrite Htier. unfold Rules.type_rule.
  repeat match goal with |- context [String.eqb ?a ?b] => destruct (String.eqb a b) end;
    done.
Qed.

(** The prototype of a record of [generateRecord] is [Object.prototype]. *)
Lemma generateRecord_proto (properties : list FieldSpec) (g : rng) :
  proto (generateRecord properties g).1 = None.
Proof.
  apply generateRecord_with_proto. intros prop g' _. apply generateField_named_proto.
Qed.


End GeneratedRecords.

Section RecordExamples.
#[local] Existing Instance Sample.libraries.

(** The override on the sample schema, whose key is a uuid. *)
Lemma primaryKey_override_witness :
  let before := forEach_field (H := Sample.libraries) generateField Sample.schema empty_object 0%nat in
  let after := generateRecord_with (H := Sample.libraries) generateField Sample.schema 0%nat in
  (type Sample.id_field = "number" →
     ∃ n, own after.1 !! name Sample.id_field = Some (VNumber n) ∧
          (10 ≤ n ≤ 10 ^ 18)%Z ∧
          (n, after.2) = faker_datatype_number (Some (10, 10 ^ 18)%Z) before.2) ∧
  (type Sample.id_field = "uuid" ∨ type Sample.id_field = "string" →
     ∃ u, own after.1 !! name Sample.id_field = Some (VString u) ∧
          is_uuid_v4 u = true ∧
          (u, after.2) = uuidv4 before.2) ∧
  (type Sample.id_field ≠ "number" → type Sample.id_field ≠ "uuid" →
     type Sample.id_field ≠ "string" → after = before) ∧
  (∀ key, key ≠ name Sample.id_field → own after.1 !! key = own before.1 !! key) ∧
  proto after.1 = proto before.1.
Proof.
  apply (primaryKey_override (H := Sample.libraries) generateField Sample.schema Sample.id_field 0%nat).
  - reflexivity.
  - discriminate.
Defined.

(** A schema whose primary key, of type [number], is named [__proto__]: the
    record has no such key, and no key at all. *)
Lemma primaryKey_named_proto_not_stored :
  List.filter primaryKey [Sample.proto_key] = [Sample.proto_key] ∧
  type Sample.proto_key = "number" ∧
  own (generateRecord [Sample.proto_key] 0%nat).1 !! name Sample.proto_key = None ∧
  own (generateRecord [Sample.proto_key] 0%nat).1 = ∅.
Proof. by vm_compute. Qed.

(** A schema of one field that is no primary key. *)
Lemma no_primaryKey_no_override_witness :
  generateRecord_with (H := Sample.libraries) generateField [Sample.name_field] 0%nat
    = forEach_field (H := Sample.libraries) generateField [Sample.name_field] empty_object 0%nat ∧
  dom (own (generateRecord_with (H := Sample.libraries) generateField [Sample.name_field] 0%nat).1)
    = names_of [Sample.name_field] ∖ {["__proto__"]} ∧
  (∀ prop, prop ∈ [Sample.name_field] → name prop ≠ "__proto__" →
     ∃ q g', q ∈ [Sample.name_field] ∧ name q = name prop ∧
       own (generateRecord_with (H := Sample.libraries) generateField [Sample.name_field] 0%nat).1
         !! name prop = Some (generateField q g').1).
Proof.
  apply (no_primaryKey_no_override (H := Sample.libraries) generateField [Sample.name_field] 0%nat).
  intros prop Hin. apply list_elem_of_singleton in Hin. by subst.
Defined.

(** A schema without primary key whose one field is named [__proto__]: the
    record is returned without error, and it is not populated. *)
Lemma field_named_proto_not_populated :
  List.find primaryKey [Sample.field "__proto__" "string"] = None ∧
  name (Sample.field "__proto__" "string") ∈ names_of [Sample.field "__proto__" "string"] ∧
  dom (own (generateRecord [Sample.field "__proto__" "string"] 0%nat).1) = ∅.
Proof.
  split; [reflexivity |]. split; [set_solver |]. by vm_compute.
Qed.

End RecordExamples.

(** C7 (defect): a field whose name selects the birth date holds a [Date]
    object, not a string, number or boolean; the type tier converts its date
    with [toISOString()], this branch of the name tier does not. *)
Theorem birthdate_stored_as_Date `{Libraries} (g : rng) :
  let record := own (generateRecord [Sample.id_field; Sample.dob_field] g).1 in
  dom record = names_of [Sample.id_field; Sample.dob_field] ∧
  ∃ ms, record !! "dob" = Some (VDate ms) ∧ is_scalar (VDate ms) = false.
Proof.
  cbv zeta. split.
  { unfold generateRecord. rewrite generateRecord_keys.
    unfold own_names_of, names_of. simpl. set_solver. }
  assert (R1 : Rules.generateField_rule Sample.id_field = Text string_uuid)
    by (vm_compute; reflexivity).
  assert (R2 : Rules.generateField_rule Sample.dob_field = Birthdate)
    by (vm_compute; reflexivity).
  unfold generateRecord, generateRecord_with, forEach_field, generateField.
  rewrite R1, R2. unfold run at 1 2.
  destruct (faker_call string_uuid g) as [s g1].
  destruct (faker_date_birthdate g1) as [ms g2].
  unfold override_primaryKey. simpl.
  destruct (uuidv4 g2) as [u g3]. simpl.
  exists ms. split; [| done].
  rewrite lookup_insert_ne by done. by rewrite lookup_insert_eq.
Qed.

(* ===================================================================== *)
(** ** Properties of the streaming encoder                                *)
(* ===================================================================== *)

Section FlowControl.
Context `{Libraries}.
#[local] Open Scope nat_scope.
Variable sink : nat → bool.
Variable has_flush : bool.
Variable e : encoder.
Variable properties : list FieldSpec.
Variable recordCount : nat.

Lemma rng_after_S (n : nat) (g : rng) :
  rng_after properties (S n) g = rng_after properties n (generateRecord properties g).2.
Proof.
  unfold rng_after. simpl. destruct (generateRecord properties g) as [record g'].
  simpl. by destruct (records_from properties n g').
Qed.

Lemma rng_after_add (n m : nat) (g : rng) :
  rng_after properties (n + m) g = rng_after properties m (rng_after properties n g).
Proof.
  revert g. induction n as [| n IH]; intros g; [done |].
  rewrite Nat.add_succ_l, !rng_after_S. apply IH.
Qed.

Lemma render_from_add (start n m : nat) (g : rng) :
  render_from e properties recordCount start (n + m) g
  = render_from e properties recordCount start n g
      ++ render_from e properties recordCount (start + n) m (rng_after properties n g).
Proof.
  revert start g. induction n as [| n IH]; intros start g.
  - simpl. by rewrite Nat.add_0_r.
  - rewrite Nat.add_succ_l. simpl. rewrite rng_after_S.
    destruct (generateRecord properties g) as [record g']. simpl.
    rewrite IH. by rewrite Nat.add_succ_r.
Qed.

Lemma render_from_length (start n : nat) (g : rng) :
  length (render_from e properties recordCount start n g) = n.
Proof.
  revert start g. induction n as [| n IH]; intros start g; simpl; [done |].
  destruct (generateRecord properties g) as [record g']. simpl. by rewrite IH.
Qed.

(** What one run of the [while] loop does: it synthesizes and writes [m]
    records, all of whose writes but the last found the sink ready, and it
    stops because the count is reached or the last write reported capacity. *)
Lemma while_loop_spec (turns : nat) (ok : bool) (st : Session) :
  ∃ m : nat, let r := while_loop sink has_flush e properties recordCount turns ok st in
    m ≤ turns ∧
    sentRecords r.2 = sentRecords st + m ∧
    random r.2 = rng_after properties m (random st) ∧
    written r.2 = written st
      ++ render_from e properties recordCount (sentRecords st) m (random st) ∧
    setHeader_calls r.2 = setHeader_calls st ∧
    ended r.2 = ended st ∧
    drain_listener r.2 = drain_listener st ∧
    (∀ j, S j < m → sink (length (written st) + j) = true) ∧
    (0 < m → ok = true ∧ sentRecords st < recordCount ∧
             r.1 = sink (length (written st) + m - 1)) ∧
    (m = 0 → r.1 = ok) ∧
    (m = turns ∨ recordCount ≤ sentRecords r.2 ∨ r.1 = false).
Proof.
  revert ok st. induction turns as [| turns IH]; intros ok st.
  - exists 0. simpl. rewrite Nat.add_0_r, app_nil_r.
    repeat split; first [done | lia | by left].
  - simpl. destruct (Nat.ltb_spec (sentRecords st) recordCount) as [Hlt | Hge];
      [destruct ok |]; simpl.
    2, 3: exists 0; simpl; rewrite Nat.add_0_r, app_nil_r;
      repeat split; try done; try lia; first [by right; right | right; left; lia].
    unfold loop_body.
    destruct (generateRecord properties (random st)) as [record g'] eqn:Hrec.
    match goal with
    | |- context [while_loop _ _ _ _ _ turns ?ok' ?st'] =>
        destruct (IH ok' st') as (m & Hm); revert Hm;
        generalize (while_loop sink has_flush e properties recordCount turns ok' st')
    end.
    intros r. cbv zeta. simpl.
    intros (Hle & Hsent & Hrng & Hwr & Hhd & Hend & Hdl & Hall & Hpos & Hzero & Hexit).
    exists (S m). repeat split.
    + lia.
    + lia.
    + rewrite rng_after_S, Hrec. exact Hrng.
    + rewrite Hwr. simpl. rewrite Hrec, <- app_assoc. done.
    + done.
    + done.
    + done.
    + intros j Hj. destruct j as [| j].
      * destruct (Hpos ltac:(lia)) as [Hok _]. by rewrite Nat.add_0_r.
      * specialize (Hall j ltac:(lia)). rewrite length_app in Hall. simpl in Hall.
        by replace (length (written st) + S j) with (length (written st) + 1 + j) by lia.
    + done.
    + destruct m as [| m].
      * rewrite (Hzero eq_refl). f_equal. lia.
      * destruct (Hpos ltac:(lia)) as (_ & _ & ->). rewrite length_app. simpl.
        f_equal. lia.
    + lia.
    + destruct Hexit as [-> | [Hexit | Hexit]]; [by left | right; left; lia | by right; right].
Qed.

Variable g0 : rng.

(** One run of [generate] from a state that has sent [a] records. *)
Lemma generate_spec (st : Session) :
  sentRecords st ≤ recordCount →
  random st = rng_after properties (sentRecords st) g0 →
  written st = enc_prologue e properties
    :: render_from e properties recordCount 0 (sentRecords st) g0 →
  ended st = false →
  drain_listener st = false →
  let st' := generate sink has_flush e properties recordCount st in
  quiescent sink e properties recordCount g0 st' ∧
  (sentRecords st < recordCount → sentRecords st < sentRecords st') ∧
  (∀ i, sentRecords st < i < sentRecords st' → sink i = true) ∧
  written st' = written st
    ++ render_from e properties recordCount (sentRecords st)
         (sentRecords st' - sentRecords st) (random st)
    ++ (if ended st' then epilogue_chunks e else []).
Proof.
  intros Hle Hrng Hwr Hend Hdl0. cbv zeta. unfold generate.
  destruct (while_loop_spec (recordCount - sentRecords st) true st) as (m & Hm).
  revert Hm.
  generalize (while_loop sink has_flush e properties recordCount
                (recordCount - sentRecords st) true st).
  intros [ok st1]. cbv zeta. simpl.
  intros (Hm & Hsent & Hrng1 & Hwr1 & Hhd & Hend1 & Hdl & Hall & Hpos & Hzero & Hexit).
  assert (Hlen : length (written st) = S (sentRecords st)).
  { rewrite Hwr. simpl. by rewrite render_from_length. }
  assert (Hrender : enc_prologue e properties
            :: render_from e properties recordCount 0 (sentRecords st1) g0
          = written st1).
  { rewrite Hwr1, Hwr, Hsent, render_from_add, <- Hrng. done. }
  assert (Hrandom : random st1 = rng_after properties (sentRecords st1) g0).
  { rewrite Hrng1, Hsent, rng_after_add, <- Hrng. done. }
  assert (Hdiff : sentRecords st1 - sentRecords st = m) by lia.
  assert (Hbetween : ∀ i, sentRecords st < i < sentRecords st1 → sink i = true).
  { intros i Hi. specialize (Hall (i - S (sentRecords st)) ltac:(lia)).
    rewrite Hlen in Hall. by replace (S (sentRecords st) + (i - S (sentRecords st))) with i in Hall by lia. }
  assert (Hprogress : sentRecords st < recordCount → sentRecords st < sentRecords st1).
  { intros Hlt. destruct m as [| m]; [| lia]. exfalso.
    rewrite (Hzero eq_refl) in Hexit. destruct Hexit as [? | [? | ?]]; [lia | lia | done]. }
  destruct (Nat.ltb_spec (sentRecords st1) recordCount) as [Hlt | Hge].
  - (* records remain: the last write reported capacity *)
    assert (Hcap : 0 < sentRecords st1 ∧ sink (sentRecords st1) = false).
    { destruct Hexit as [? | [? | Hok]]; [lia | lia |].
      destruct m as [| m]; [by rewrite (Hzero eq_refl) in Hok |].
      destruct (Hpos ltac:(lia)) as (_ & _ & Hlast). rewrite Hok, Hlen in Hlast.
      split; [lia |]. rewrite Hlast. f_equal. lia. }
    unfold quiescent, once_drain. simpl.
    destruct (Nat.ltb_spec (sentRecords st1) recordCount) as [_ | ?]; [| lia].
    rewrite Hend1, Hend, app_nil_r, Hdiff. simpl.
    repeat split; try done; try lia; try (by destruct Hcap).
    by rewrite app_nil_r.
  - unfold quiescent, finish. simpl.
    destruct (Nat.ltb_spec (sentRecords st1) recordCount) as [? | _]; [lia |].
    rewrite Hdiff. simpl.
    repeat split; try done; try lia.
    + by rewrite <- Hrender.
    + by rewrite Hdl.
    + by rewrite Hwr1, <- app_assoc.
Qed.

(** The states reached by drain events are quiescent. *)
Lemma after_drains_quiescent (k : nat) :
  quiescent sink e properties recordCount g0 (after_drains sink has_flush e properties recordCount k g0).
Proof.
  induction k as [| k IH]; simpl.
  - unfold stream. apply generate_spec; simpl; done || lia.
  - unfold on_drain.
    destruct (drain_listener _) eqn:Hdl; [| exact IH].
    destruct IH as (Hle & Hrng & Hwr & Hdl' & Hend & Hcap).
    rewrite Hdl in Hdl'. symmetry in Hdl'. rewrite Hdl' in Hend. simpl in Hend.
    rewrite Hend, app_nil_r in Hwr.
    apply generate_spec; simpl; done.
Qed.

(** A drain event on a waiting session resumes with the next record. *)
Lemma on_drain_resumes (st : Session) :
  quiescent sink e properties recordCount g0 st → drain_listener st = true →
  let st' := on_drain sink has_flush e properties recordCount st in
  quiescent sink e properties recordCount g0 st' ∧
  sentRecords st < sentRecords st' ∧
  (∀ i, sentRecords st < i < sentRecords st' → sink i = true) ∧
  written st' = written st
    ++ render_from e properties recordCount (sentRecords st)
         (sentRecords st' - sentRecords st) (random st)
    ++ (if ended st' then epilogue_chunks e else []).
Proof.
  intros (Hle & Hrng & Hwr & Hdl' & Hend & Hcap) Hdl. cbv zeta.
  unfold on_drain. rewrite Hdl.
  rewrite Hdl in Hdl'. symmetry in Hdl'. rewrite Hdl' in Hend. simpl in Hend.
  rewrite Hend, app_nil_r in Hwr.
  apply Nat.ltb_lt in Hdl'.
  match goal with
  | |- context [generate _ _ _ _ _ ?st0] =>
      destruct (generate_spec st0) as (Hq & Hprog & Hbetween & Hwritten); simpl; try done
  end.
  simpl in *. split; [exact Hq |]. split; [by apply Hprog |].
  split; [exact Hbetween | exact Hwritten].
Qed.

(** A drain event on a session that is not waiting changes nothing. *)
Lemma on_drain_idle (st : Session) :
  drain_listener st = false →
  on_drain sink has_flush e properties recordCount st = st.
Proof. unfold on_drain. by intros ->. Qed.

(** The first run of [generate]: every write before the one that stopped it
    found the sink ready. *)
Lemma stream_spec :
  let st := stream sink has_flush e properties recordCount g0 in
  quiescent sink e properties recordCount g0 st ∧
  (∀ i, 0 < i < sentRecords st → sink i = true).
Proof.
  cbv zeta. unfold stream.
  match goal with
  | |- context [generate _ _ _ _ _ ?st0] =>
      destruct (generate_spec st0) as (Hq & _ & Hbetween & _); simpl; try done; try lia
  end.
Qed.

(** Every drain event that finds the session waiting makes progress. *)
Lemma after_drains_progress (k : nat) :
  let st := after_drains sink has_flush e properties recordCount k g0 in
  recordCount ≤ sentRecords st ∨ k < sentRecords st.
Proof.
  cbv zeta. induction k as [| k IH].
  - destruct (after_drains_quiescent 0) as (_ & _ & _ & _ & _ & Hcap).
    destruct (Nat.lt_ge_cases
      (sentRecords (after_drains sink has_flush e properties recordCount 0 g0))
      recordCount) as [Hlt | Hge]; [right | by left].
    by destruct (Hcap Hlt).
  - pose proof (after_drains_quiescent k) as Hq. simpl.
    destruct (drain_listener (after_drains sink has_flush e properties recordCount k g0))
      eqn:Hdl.
    + destruct (on_drain_resumes _ Hq Hdl) as (_ & Hprog & _). cbv zeta in Hprog.
      destruct IH as [Hge | Hlt]; [left | right]; lia.
    + rewrite on_drain_idle by done.
      destruct Hq as (_ & _ & _ & Hdl' & _). rewrite Hdl in Hdl'.
      symmetry in Hdl'. apply Nat.ltb_ge in Hdl'. by left.
Qed.

(** After as many drain events as there are records, the session has ended
    with all of them sent, whatever the sink answered. *)
Lemma after_drains_complete (k : nat) :
  recordCount ≤ k →
  let st := after_drains sink has_flush e properties recordCount k g0 in
  sentRecords st = recordCount ∧ ended st = true ∧ drain_listener st = false ∧
  written st = enc_prologue e properties
    :: render_from e properties recordCount 0 recordCount g0 ++ epilogue_chunks e.
Proof.
  intros Hk. cbv zeta.
  destruct (after_drains_quiescent k) as (Hle & _ & Hwr & Hdl & Hend & _).
  pose proof (after_drains_progress k) as Hprog. cbv zeta in Hprog.
  assert (Hsent : sentRecords (after_drains sink has_flush e properties recordCount k g0)
                  = recordCount) by lia.
  rewrite Hsent in *. rewrite Nat.ltb_irrefl in Hdl, Hend. simpl in Hend.
  rewrite Hend in Hwr. done.
Qed.

(** A write that reports capacity before the last record parks the session
    there. *)
Lemma capacity_reached (N : nat) :
  0 < N < recordCount → sink N = false →
  ∃ k, sentRecords (after_drains sink has_flush e properties recordCount k g0) = N.
Proof.
  intros HN Hcap.
  assert (Hreach : ∀ k,
    (∃ j, j ≤ k ∧
       sentRecords (after_drains sink has_flush e properties recordCount j g0) = N) ∨
    (k < sentRecords (after_drains sink has_flush e properties recordCount k g0) < N)).
  { induction k as [| k IH].
    - destruct stream_spec as [Hq Hready]. simpl.
      set (st := stream sink has_flush e properties recordCount g0) in *.
      destruct (Nat.lt_total (sentRecords st) N) as [Hlt | [Heq | Hgt]].
      + right. destruct Hq as (_ & _ & _ & _ & _ & Hpos).
        destruct (Hpos ltac:(lia)). lia.
      + left. exists 0. done.
      + rewrite Hready in Hcap by lia. done.
    - destruct IH as [(j & Hj & Hsent) | Hbelow].
      { left. exists j. split; [lia | done]. }
      pose proof (after_drains_quiescent k) as Hq. simpl.
      set (st := after_drains sink has_flush e properties recordCount k g0) in *.
      assert (Hdl : drain_listener st = true).
      { destruct Hq as (_ & _ & _ & -> & _). apply Nat.ltb_lt. lia. }
      destruct (on_drain_resumes st Hq Hdl) as (_ & Hprog & Hready & _).
      cbv zeta in Hprog, Hready.
      set (st' := on_drain sink has_flush e properties recordCount st) in *.
      destruct (Nat.lt_total (sentRecords st') N) as [Hlt | [Heq | Hgt]].
      + right. lia.
      + left. exists (S k). done.
      + rewrite Hready in Hcap by lia. done. }
  destruct (Hreach N) as [(j & _ & Hsent) | Hbelow]; [by exists j | lia].
Qed.

(** C1: if the write of record [N] reports capacity and records remain, the
    session reaches, after some drain events, a state in which it is parked:
    exactly the first [N] records have been synthesized (the random source
    stands where record [N] left it) and written, in order, after the
    prologue, and the only thing pending is the one-shot drain listener.  The
    drain event then continues with record [N + 1]: what it appends to the
    output are the chunks of the records [N + 1, N + 2, ...] synthesized from
    that state of the random source, up to the next write that reports
    capacity or the last record.  Every state between drain events is
    quiescent: what was synthesized is what was written. *)
Theorem suspension_correctness (N : nat) :
  0 < N < recordCount → sink N = false →
  (∃ k,
    let st := after_drains sink has_flush e properties recordCount k g0 in
    suspended_at st N ∧
    random st = rng_after properties N g0 ∧
    written st = enc_prologue e properties
      :: render_from e properties recordCount 0 N g0 ∧
    let st' := on_drain sink has_flush e properties recordCount st in
    N < sentRecords st' ∧
    random st' = rng_after properties (sentRecords st') g0 ∧
    written st' = written st
      ++ render_from e properties recordCount N (sentRecords st' - N) (random st)
      ++ (if ended st' then epilogue_chunks e else []) ∧
    (∀ i, N < i < sentRecords st' → sink i = true)) ∧
  (∀ k, quiescent sink e properties recordCount g0
          (after_drains sink has_flush e properties recordCount k g0)).
Proof.
  intros HN Hcap. split; [| apply after_drains_quiescent].
  destruct (capacity_reached N HN Hcap) as [k Hk]. exists k. cbv zeta.
  pose proof (after_drains_quiescent k) as Hq.
  set (st := after_drains sink has_flush e properties recordCount k g0) in *.
  destruct Hq as (Hle & Hrng & Hwr & Hdl & Hend & Hpos).
  rewrite Hk in *.
  assert (HltN : Nat.ltb N recordCount = true) by (apply Nat.ltb_lt; lia).
  rewrite HltN in Hdl, Hend. simpl in Hend. rewrite Hend, app_nil_r in Hwr.
  split; [done |]. split; [done |]. split; [done |].
  assert (Hq : quiescent sink e properties recordCount g0 st).
  { unfold quiescent. rewrite Hk, HltN, Hend, app_nil_r. done. }
  destruct (on_drain_resumes st Hq Hdl) as (Hq' & Hprog & Hready & Hwritten).
  cbv zeta in *. rewrite Hk in *.
  split; [done |]. split; [apply Hq' |]. split; done.
Qed.

End FlowControl.

Section SuspensionExample.
#[local] Existing Instance Sample.libraries.

(** Three records into a sink that reports capacity on the first. *)
Lemma suspension_correctness_witness :
  (∃ k,
    let st := after_drains (Sample.full_at 1) false csv_encoder
                Sample.schema 3 k 0%nat in
    suspended_at st 1 ∧
    random st = rng_after Sample.schema 1 0%nat ∧
    written st = enc_prologue (csv_encoder) Sample.schema
      :: render_from csv_encoder Sample.schema 3 0 1 0%nat ∧
    let st' := on_drain (Sample.full_at 1) false csv_encoder Sample.schema 3 st in
    (1 < sentRecords st')%nat ∧
    random st' = rng_after Sample.schema (sentRecords st') 0%nat ∧
    written st' = written st
      ++ render_from csv_encoder Sample.schema 3 1 (sentRecords st' - 1) (random st)
      ++ (if ended st' then epilogue_chunks (csv_encoder) else []) ∧
    (∀ i, (1 < i < sentRecords st')%nat → Sample.full_at 1 i = true)) ∧
  (∀ k, quiescent (Sample.full_at 1) csv_encoder Sample.schema 3 0%nat
          (after_drains (Sample.full_at 1) false csv_encoder
             Sample.schema 3 k 0%nat)).
Proof.
  apply (suspension_correctness (H := Sample.libraries) (Sample.full_at 1) false
           csv_encoder Sample.schema 3 0%nat 1).
  - split; [exact (le_n 1) | exact (le_S 2 2 (le_n 2))].
  - reflexivity.
Defined.

End SuspensionExample.

(* ===================================================================== *)
(** ** Properties of the wire formats                                     *)
(* ===================================================================== *)

Section Strings.
Import Wire.

Lemma append_nil_r (s : string) : s +:+ "" = s.
Proof. induction s as [| c s IH]; [done |]. change (String c (s +:+ "") = String c s). by rewrite IH. Qed.

Lemma append_cons (c : ascii) (s t : string) : String c s +:+ t = String c (s +:+ t).
Proof. reflexivity. Qed.

Lemma append_assoc (s t u : string) : (s +:+ t) +:+ u = s +:+ t +:+ u.
Proof.
  induction s as [| c s IH]; [done |].
  rewrite !append_cons. by rewrite IH.
Qed.

Lemma body_cons (chunk : string) (l : list string) : body (chunk :: l) = chunk +:+ body l.
Proof. reflexivity. Qed.

Lemma body_app (l1 l2 : list string) : body (l1 ++ l2) = body l1 +:+ body l2.
Proof.
  induction l1 as [| chunk l1 IH]; simpl; [done |].
  by rewrite IH, append_assoc.
Qed.

(** Doubling the quotes neither adds nor removes a comma, a newline or the
    presence of a quote. *)
Lemma has_special_double_quotes (s : string) :
  has_special (double_quotes s) = has_special s.
Proof.
  induction s as [| c s IH]; simpl; [done |].
  destruct (Ascii.eqb_spec c dquote) as [-> | Hc]; simpl.
  - done.
  - by rewrite IH.
Qed.

(** A value without quotes is its own escaped form. *)
Lemma double_quotes_plain (s : string) :
  has_special s = false → double_quotes s = s.
Proof.
  induction s as [| c s IH]; simpl; [done |].
  intros Hs. apply orb_false_iff in Hs as [Hc Hs].
  unfold is_special in Hc. apply orb_false_iff in Hc as [Hc _].
  apply orb_false_iff in Hc as [Hc _]. rewrite Hc. by rewrite IH.
Qed.

(** Reading doubled quotes back gives the value. *)
Lemma undouble_double_quotes (s : string) : undouble (double_quotes s) = s.
Proof.
  induction s as [| c s IH]; simpl; [done |].
  destruct (Ascii.eqb_spec c dquote) as [-> | Hc]; simpl.
  - by rewrite IH.
  - destruct (Ascii.eqb_spec c dquote) as [? | _]; [done |]. by rewrite IH.
Qed.

(** The escaping of [streamCSV], on the value as synthesized: wrapped in
    quotes, with its quotes doubled, exactly when it holds a quote, a comma
    or a newline; unchanged otherwise. *)
Lemma csv_string_spec (s : string) :
  csv_string s = if has_special s then dq +:+ double_quotes s +:+ dq else s.
Proof.
  unfold csv_string. cbv zeta. rewrite has_special_double_quotes.
  destruct (has_special s) eqn:Hs; [done |]. by apply double_quotes_plain.
Qed.

(** [join] is the concatenation with a separator of the standard library. *)
Lemma join_concat (sep : string) (l : list string) : Js.join sep l = String.concat sep l.
Proof.
  induction l as [| x l IH]; [done |].
  destruct l as [| y l]; [done |].
  change (x +:+ sep +:+ Js.join sep (y :: l) = x +:+ sep +:+ String.concat sep (y :: l)).
  by rewrite IH.
Qed.




End Strings.

(* ===================================================================== *)
(** ** The reader of JSON texts                                           *)
(* ===================================================================== *)

Section JsonReader.
Import Json.
#[local] Open Scope nat_scope.

(** What follows a string does not change where the string ends. *)
Lemma string_rest_app (st : string_state) (s r t : string) :
  string_rest st s = Some r → string_rest st (s +:+ t) = Some (r +:+ t).
Proof.
  revert st. induction s as [| c s IH]; intros st; [done |].
  rewrite append_cons. simpl.
  destruct st as [| | more].
  - destruct (Ascii.eqb c dquote); [by intros [= ->] |].
    destruct (Ascii.eqb c backslash); [apply IH |].
    destruct (Js.code c <? 32); [done | apply IH].
  - destruct (is_escape c); [apply IH |].
    destruct (Ascii.eqb c "u"); [apply IH | done].
  - destruct (is_hex_digit c); [| done].
    destruct more; apply IH.
Qed.

Lemma closes_not_number_char (c : ascii) (t : string) :
  closes (String c t) = true → is_number_char c = false.
Proof.
  simpl. intros Hc.
  apply orb_true_iff in Hc as [Hc | Hc]; [apply orb_true_iff in Hc as [Hc | Hc] |];
    apply Ascii.eqb_eq in Hc; by subst.
Qed.

(** A number ends where a comma, a bracket or a brace follows. *)
Lemma span_number_app (s t : string) :
  closes t = true →
  span_number (s +:+ t) = ((span_number s).1, (span_number s).2 +:+ t).
Proof.
  intros Ht. induction s as [| c s IH].
  - destruct t as [| d t]; [done |].
    simpl. by rewrite (closes_not_number_char d t Ht).
  - rewrite append_cons. simpl. destruct (is_number_char c); [| done].
    rewrite IH. by destruct (span_number s).
Qed.

Lemma number_app (s r t : string) :
  number s = Some r → closes t = true → number (s +:+ t) = Some (r +:+ t).
Proof.
  unfold number. intros Hs Ht. rewrite span_number_app by done.
  destruct (span_number s) as [token rest]. simpl.
  destruct (is_number NStart token); [| done]. by injection Hs as ->.
Qed.

Lemma strip_prefix_app (p s r t : string) :
  strip_prefix p s = Some r → strip_prefix p (s +:+ t) = Some (r +:+ t).
Proof.
  revert s. induction p as [| c p IH]; intros s; simpl.
  - by intros [= ->].
  - destruct s as [| d s]; [done |]. rewrite append_cons.
    destruct (Ascii.eqb c d); [apply IH | done].
Qed.

Lemma scalar_app (s r t : string) :
  scalar s = Some r → closes t = true → scalar (s +:+ t) = Some (r +:+ t).
Proof.
  destruct s as [| c s]; [done |]. intros Hs Ht.
  unfold scalar in *. rewrite append_cons.
  destruct (Ascii.eqb c dquote); [by apply string_rest_app |].
  rewrite <- append_cons.
  destruct (Ascii.eqb c "t"); [by apply strip_prefix_app |].
  destruct (Ascii.eqb c "f"); [by apply strip_prefix_app |].
  destruct (Ascii.eqb c "n"); [by apply strip_prefix_app |].
  by apply number_app.
Qed.

(** More fuel does not change a result. *)
Lemma parse_mono (fuel fuel' : nat) (m : mode) (s : string) (x : nat * string) :
  parse fuel m s = Some x → fuel ≤ fuel' → parse fuel' m s = Some x.
Proof.
  revert fuel' m s x. induction fuel as [| fuel IH]; intros fuel' m s x; [done |].
  destruct fuel' as [| fuel']; [lia |]. intros Hs Hle.
  assert (IH' : ∀ m s x, parse fuel m s = Some x → parse fuel' m s = Some x).
  { intros m' s' x' Hp. apply (IH fuel' m' s' x' Hp). lia. }
  clear IH Hle. cbn [parse] in *.
  destruct m.
  - destruct s as [| c r]; [done |].
    destruct (Ascii.eqb c "{").
    { destruct r as [| c' r']; [done |].
      destruct (Ascii.eqb c' "}"); [done | by apply IH']. }
    destruct (Ascii.eqb c "[").
    { destruct r as [| c' r']; [done |].
      destruct (Ascii.eqb c' "]"); [done | by apply IH']. }
    done.
  - destruct s as [| c r]; [done |].
    destruct (Ascii.eqb c dquote); [| done].
    destruct (string_rest Plain r) as [[| c' r'] |]; [done | | done].
    destruct (Ascii.eqb c' ":"); [| done].
    destruct (parse fuel Value r') as [[n1 [| c'' r'']] |] eqn:E1; [done | | done].
    rewrite (IH' _ _ _ E1).
    destruct (Ascii.eqb c'' ","); [| done].
    destruct (parse fuel Members r'') as [[n2 rest] |] eqn:E2; [| done].
    by rewrite (IH' _ _ _ E2).
  - destruct (parse fuel Value s) as [[n1 [| c r]] |] eqn:E1; [done | | done].
    rewrite (IH' _ _ _ E1).
    destruct (Ascii.eqb c ","); [| done].
    destruct (parse fuel Elements r) as [[n2 rest] |] eqn:E2; [| done].
    by rewrite (IH' _ _ _ E2).
Qed.

(** The reader is a function of the text: two runs that give a result give
    the same. *)
Lemma parse_functional (fuel1 fuel2 : nat) (m : mode) (s : string) (x1 x2 : nat * string) :
  parse fuel1 m s = Some x1 → parse fuel2 m s = Some x2 → x1 = x2.
Proof.
  intros H1 H2.
  apply (parse_mono fuel1 (fuel1 `max` fuel2)) in H1; [| lia].
  apply (parse_mono fuel2 (fuel1 `max` fuel2)) in H2; [| lia].
  congruence.
Qed.

(** What follows a value, when it can follow one, does not change the
    value read. *)
Lemma parse_app (fuel : nat) (m : mode) (s : string) (n : nat) (r t : string) :
  parse fuel m s = Some (n, r) → closes t = true →
  parse fuel m (s +:+ t) = Some (n, r +:+ t).
Proof.
  intros Hs Ht. revert m s n r Hs.
  induction fuel as [| fuel IH]; intros m s n r; [done |].
  cbn [parse]. destruct m.
  - destruct s as [| c s]; [done |]. rewrite append_cons.
    destruct (Ascii.eqb c "{").
    { destruct s as [| c' s']; [done |]. rewrite append_cons.
      destruct (Ascii.eqb c' "}"); [by intros [= <- <-] |].
      rewrite <- append_cons. apply IH. }
    destruct (Ascii.eqb c "[").
    { destruct s as [| c' s']; [done |]. rewrite append_cons.
      destruct (Ascii.eqb c' "]"); [by intros [= <- <-] |].
      rewrite <- append_cons. apply IH. }
    rewrite <- append_cons.
    destruct (scalar (String c s)) as [rest |] eqn:E; [| done].
    intros [= <- <-]. by rewrite (scalar_app _ _ t E Ht).
  - destruct s as [| c s]; [done |]. rewrite append_cons.
    destruct (Ascii.eqb c dquote); [| done].
    destruct (string_rest Plain s) as [[| c' r'] |] eqn:E; [done | | done].
    rewrite (string_rest_app _ _ _ t E), append_cons.
    destruct (Ascii.eqb c' ":"); [| done].
    destruct (parse fuel Value r') as [[n1 [| c'' r'']] |] eqn:E1; [done | | done].
    rewrite (IH _ _ _ _ E1), append_cons.
    destruct (Ascii.eqb c'' ",").
    + destruct (parse fuel Members r'') as [[n2 rest] |] eqn:E2; [| done].
      rewrite (IH _ _ _ _ E2). by intros [= <- <-].
    + destruct (Ascii.eqb c'' "}"); [| done]. by intros [= <- <-].
  - destruct (parse fuel Value s) as [[n1 [| c r1]] |] eqn:E1; [done | | done].
    rewrite (IH _ _ _ _ E1), append_cons.
    destruct (Ascii.eqb c ",").
    + destruct (parse fuel Elements r1) as [[n2 rest] |] eqn:E2; [| done].
      rewrite (IH _ _ _ _ E2). by intros [= <- <-].
    + destruct (Ascii.eqb c "]"); [| done]. by intros [= <- <-].
Qed.

(** A value does not start with a closing bracket. *)
Lemma well_formed_head (s : string) :
  well_formed s → ∃ c r, s = String c r ∧ Ascii.eqb c "]" = false.
Proof.
  intros (fuel & n & Hs). destruct fuel as [| fuel]; [done |].
  destruct s as [| c r]; [done |]. exists c, r. split; [done |].
  destruct (Ascii.eqb_spec c "]") as [-> | _]; [| done].
  by vm_compute in Hs.
Qed.

(** Values separated by commas and closed by a bracket are read as the
    elements of an array, one for each. *)
Lemma parse_elements (e : string) (es : list string) :
  Forall well_formed (e :: es) →
  ∃ fuel, parse fuel Elements (String.concat "," (e :: es) +:+ "]")
          = Some (length (e :: es), "").
Proof.
  revert e. induction es as [| e' es IH]; intros e Hall.
  - apply Forall_inv in Hall as (fuel & n & He).
    exists (S fuel). cbn [parse String.concat].
    rewrite (parse_app _ _ _ _ _ "]" He eq_refl). done.
  - pose proof (Forall_inv Hall) as (fuel1 & n & He).
    destruct (IH e' (Forall_inv_tail Hall)) as (fuel2 & Hrest).
    exists (S (fuel1 `max` fuel2)).
    change (String.concat "," (e :: e' :: es))
      with (e +:+ "," +:+ String.concat "," (e' :: es)).
    rewrite !append_assoc.
    apply (parse_mono _ (fuel1 `max` fuel2)) in He; [| lia].
    apply (parse_mono _ (fuel1 `max` fuel2)) in Hrest; [| lia].
    cbn [parse].
    rewrite (parse_app _ _ _ _ _ ("," +:+ String.concat "," (e' :: es) +:+ "]") He eq_refl).
    change ("" +:+ "," +:+ ?x) with (String "," x).
    cbn [Ascii.eqb Bool.eqb]. by rewrite Hrest.
Qed.

Lemma parse_open_bracket (fuel : nat) (c : ascii) (r : string) :
  parse (S fuel) Value (String "[" (String c r))
  = if Ascii.eqb c "]" then Some (0, r) else parse fuel Elements (String c r).
Proof. reflexivity. Qed.

(** An opening bracket, well-formed values separated by commas and a closing
    bracket are the text of an array with one element for each value. *)
Lemma array_of_concat (es : list string) :
  Forall well_formed es →
  array_of (length es) ("[" +:+ String.concat "," es +:+ "]").
Proof.
  intros Hall. split; [by eexists |].
  destruct es as [| e es].
  - by exists 1.
  - destruct (parse_elements e es Hall) as (fuel & Hes).
    destruct (well_formed_head e (Forall_inv Hall)) as (c & r & -> & Hc).
    exists (S fuel). revert Hes.
    destruct es as [| e' es].
    + cbn [String.concat]. change ("[" +:+ ?x) with (String "[" x).
      rewrite append_cons, parse_open_bracket, Hc. by intros ->.
    + change (String.concat "," (String c r :: e' :: es))
        with (String c r +:+ "," +:+ String.concat "," (e' :: es)).
      change ("[" +:+ ?x) with (String "[" x).
      rewrite !append_cons, parse_open_bracket, Hc. by intros ->.
Qed.

End JsonReader.

Section Formats.
Context `{Libraries}.
#[local] Open Scope nat_scope.
Import Wire.
Variable sink : nat → bool.
Variable has_flush : bool.
Variable properties : list FieldSpec.
Variable recordCount : nat.
Variable g0 : rng.

Lemma records_from_length (n : nat) (g : rng) :
  length (records_from properties n g).1 = n.
Proof.
  revert g. induction n as [| n IH]; intros g; simpl; [done |].
  destruct (generateRecord properties g) as [record g'].
  specialize (IH g'). destruct (records_from properties n g'). simpl in *. by rewrite IH.
Qed.


(** The chunks of [streamJSON], put together, are the serialized records
    separated by commas. *)
Lemma render_from_json_body (start n : nat) (g : rng) :
  start + n = recordCount →
  body (render_from json_encoder properties recordCount start n g)
  = Js.join "," (map JSON_stringify (records_from properties n g).1).
Proof.
  revert start g. induction n as [| n IH]; intros start g Hsum; simpl; [done |].
  destruct (generateRecord properties g) as [record g'].
  specialize (IH (S start) g' ltac:(lia)).
  rewrite body_cons, IH. unfold jsonLine.
  destruct n as [| n].
  - simpl. destruct (Nat.ltb_spec (S start) recordCount) as [? | _]; [lia |].
    by rewrite !append_nil_r.
  - destruct (records_from properties (S n) g') as [rest g3] eqn:Hrest.
    assert (Hlen : length rest = S n).
    { pose proof (records_from_length (S n) g') as Hl. by rewrite Hrest in Hl. }
    destruct rest as [| record' rest]; [done |].
    destruct (Nat.ltb_spec (S start) recordCount) as [_ | ?]; [| lia].
    simpl map. change (Js.join "," (?x :: ?y :: ?l)) with (x +:+ "," +:+ Js.join "," (y :: l)).
    by rewrite append_assoc.
Qed.

(** Every record of a session is a result of [generateRecord]. *)
Lemma records_from_elem (n : nat) (g : rng) (record : jsobject) :
  record ∈ (records_from properties n g).1 →
  ∃ g', record = (generateRecord properties g').1.
Proof.
  revert g. induction n as [| n IH]; intros g; simpl.
  - by intros ?%elem_of_nil.
  - destruct (generateRecord properties g) as [r g'] eqn:Hr.
    specialize (IH g'). destruct (records_from properties n g') as [rest g'']. simpl in *.
    intros [-> | Hin]%elem_of_cons; [| by apply IH].
    exists g. by rewrite Hr.
Qed.




(** C6: [streamJSON] starts the session; once it has ended (after at most
    [recordCount] drain events), the body it has written is an opening
    bracket, the serialized records separated by single commas, and a closing
    bracket.  The reader of JSON texts accepts it as an array of
    [recordCount] elements, and gives no other reading of it.  Each element
    is the text of an object: the [JSON.stringify] of a record whose
    prototype is [Object.prototype] and whose own keys are the field names
    other than [__proto__]. *)
Theorem json_output (k : nat) :
  let st := after_drains sink has_flush json_encoder properties recordCount
              (recordCount + k) g0 in
  let records := (records_from properties recordCount g0).1 in
  Route.streamJSON sink has_flush properties recordCount g0
    = after_drains sink has_flush json_encoder properties recordCount 0 g0 ∧
  ended st = true ∧
  length records = recordCount ∧
  written st = "[" :: render_from json_encoder properties recordCount 0 recordCount g0
                 ++ ["]"] ∧
  body (written st) = "[" +:+ String.concat "," (map JSON_stringify records) +:+ "]" ∧
  Json.array_of recordCount (body (written st)) ∧
  (∀ fuel n rest, Json.parse fuel Json.Value (body (written st)) = Some (n, rest) →
     n = recordCount ∧ rest = "") ∧
  (∀ record, record ∈ records →
     proto record = None ∧
     Json.object_text (JSON_stringify record) ∧
     dom (own record) = names_of properties ∖ {["__proto__"]}).
Proof.
  cbv zeta.
  destruct (after_drains_complete sink has_flush json_encoder properties recordCount g0
              (recordCount + k) ltac:(lia)) as (Hsent & Hend & _ & Hwr).
  cbv zeta in *.
  change (epilogue_chunks json_encoder) with ["]"] in Hwr.
  change (enc_prologue json_encoder properties) with "[" in Hwr.
  assert (Hbody : body (written (after_drains sink has_flush json_encoder properties
                                   recordCount (recordCount + k) g0))
                  = "[" +:+ String.concat "," (map JSON_stringify
                                (records_from properties recordCount g0).1) +:+ "]").
  { rewrite Hwr, body_cons, body_app, render_from_json_body by lia.
    rewrite body_cons. simpl body. by rewrite append_nil_r, join_concat. }
  assert (Hrecords : ∀ record, record ∈ (records_from properties recordCount g0).1 →
            proto record = None ∧ Json.object_text (JSON_stringify record) ∧
            dom (own record) = names_of properties ∖ {["__proto__"]}).
  { intros record Hin. apply records_from_elem in Hin as [g' ->].
    pose proof (generateRecord_proto properties g') as Hproto.
    split; [done |]. split; [by apply JSON_stringify_object |].
    apply generateRecord_keys. }
  assert (Harray : Json.array_of recordCount
            (body (written (after_drains sink has_flush json_encoder properties
                              recordCount (recordCount + k) g0)))).
  { rewrite Hbody.
    pose proof (array_of_concat
                  (map JSON_stringify (records_from properties recordCount g0).1))
      as Harray.
    rewrite length_map, records_from_length in Harray. apply Harray.
    apply Forall_forall. intros text Htext.
    apply list_elem_of_fmap in Htext as (record & -> & Hin).
    by apply Hrecords. }
  split; [reflexivity |].
  split; [exact Hend |]. split; [apply records_from_length |].
  split; [exact Hwr |]. split; [exact Hbody |]. split; [exact Harray |].
  split; [| exact Hrecords].
  intros fuel n rest Hparse. destruct Harray as (_ & fuel' & Hparse').
  by injection (parse_functional _ _ _ _ _ _ Hparse Hparse') as -> ->.
Qed.

End Formats.

Section FormatExamples.
#[local] Existing Instance Sample.libraries.
Import Wire.



(** A schema with a field named [__proto__]: the record of the session owns
    no such key, so no such key is serialized. *)
Lemma json_record_without_proto_key :
  "__proto__" ∈ names_of [Sample.id_field; Sample.field "__proto__" "string"] ∧
  map (λ record, own record !! "__proto__")
    (records_from (H := Sample.libraries)
       [Sample.id_field; Sample.field "__proto__" "string"] 1 0%nat).1 = [None] ∧
  map (λ record, own record !! "id")
    (records_from (H := Sample.libraries)
       [Sample.id_field; Sample.field "__proto__" "string"] 1 0%nat).1
  = [Some (VString Sample.sample_uuid)].
Proof. split; [set_solver |]. by vm_compute. Qed.

(** Texts the reader accepts and refuses. *)
Example json_reader_accepts :
  Json.parse 20 Json.Value "[1,-2.5e+3,[true,null],{}]" = Some (4, "").
Proof. reflexivity. Qed.

Example json_reader_refuses :
  Json.parse 9 Json.Value "[,]" = None ∧ Json.parse 9 Json.Value "[1,]" = None ∧
  Json.parse 9 Json.Value "[01]" = None ∧ Json.parse 9 Json.Value "[1 2]" = None.
Proof. by vm_compute. Qed.

End FormatExamples.

(* ===================================================================== *)
(** ** Properties of the request validation                               *)
(* ===================================================================== *)

Section Validation.
Import Route.
#[local] Open Scope nat_scope.

Lemma includes_elem_of (l : list string) (s : string) :
  Js.includes l s = true ↔ s ∈ l.
Proof.
  unfold Js.includes. rewrite existsb_exists. split.
  - intros (x & Hin & Heq). apply String.eqb_eq in Heq as ->. by apply list_elem_of_In.
  - intros Hin. exists s. split; [by apply list_elem_of_In | apply String.eqb_refl].
Qed.

Lemma includes_val_true (l : list string) (v : jsval) :
  includes_val l v = true → ∃ s, v = JString s ∧ s ∈ l.
Proof.
  destruct v; simpl; try done. intros Hin. eexists. split; [done |].
  by apply includes_elem_of.
Qed.

(** The filter of the primary keys fails on a [null] element and counts the
    marked elements otherwise. *)
Lemma filter_primaryKey_Some (elems : list (option RawProp)) (keys : list RawProp) :
  filter_primaryKey elems = Some keys →
  Forall (λ elem, elem ≠ None) elems ∧
  length keys = length (List.filter marked_primaryKey elems).
Proof.
  revert keys. induction elems as [| [prop |] elems IH]; intros keys; simpl.
  - intros [= <-]. done.
  - destruct (filter_primaryKey elems) as [keys' |]; [| done].
    destruct (IH keys' eq_refl) as [Hall Hlen]. intros [= <-].
    split; [by constructor |].
    destruct (truthy (raw_primaryKey prop)); simpl; by rewrite Hlen.
  - done.
Qed.

Lemma present_elem_of (elems : list (option RawProp)) (prop : RawProp) :
  Some prop ∈ elems → prop ∈ present elems.
Proof.
  unfold present. intros Hin. apply list_elem_of_omap. by exists (Some prop).
Qed.

(** What the checks of the handler let through is none of the invalid
    requests. *)
Lemma validate_accepts_valid (req : Request) (accepted : string * Q * list FieldSpec) :
  validate req = inr accepted → ¬ invalid_request req.
Proof.
  unfold validate.
  destruct (includes_val supportedTypes (fileType req)) eqn:Htype; simpl; [| done].
  destruct (bad_fileSize (fileSize req)) eqn:Hsize; [done |].
  destruct (properties req) as [v | elems] eqn:Hprops; [done |].
  destruct (Nat.eqb_spec (length elems) 0) as [Hempty | Hnonempty]; [done |].
  destruct (filter_primaryKey elems) as [keys |] eqn:Hkeys; [| done].
  destruct (Nat.ltb_spec 1 (length keys)) as [Hmany | Hfew]; [done |].
  destruct (Nat.eqb_spec (length keys) 0) as [Hnone | Hsome]; [done |].
  destruct (existsb bad_prop (present elems)) eqn:Hbad; [done |].
  intros _.
  apply includes_val_true in Htype as (ft & Hft & Hin).
  destruct (filter_primaryKey_Some _ _ Hkeys) as [Hnonnull Hcount].
  intros [Hinv | [Hinv | [Hinv | [Hinv | Hinv]]]].
  - by apply (Hinv ft).
  - unfold bad_fileSize in Hsize. destruct (fileSize req) as [| | | q | | |] eqn:Hq; try done.
    apply orb_false_iff in Hsize as [Hlo Hhi].
    apply negb_false_iff, Qle_bool_iff in Hlo, Hhi.
    by apply (Hinv q).
  - specialize (Hinv elems Hprops). by subst.
  - unfold primaryKey_count in Hinv. rewrite Hprops, <- Hcount in Hinv. lia.
  - destruct Hinv as (elems' & elem & Heq & Hin' & Hinvalid).
    rewrite Hprops in Heq. injection Heq as <-.
    destruct elem as [prop |].
    2: { rewrite Forall_forall in Hnonnull. by apply (Hnonnull None). }
    assert (Hgood : bad_prop prop = false).
    { destruct (bad_prop prop) eqn:Hp; [| done].
      assert (existsb bad_prop (present elems) = true); [| congruence].
      apply existsb_exists. exists prop. split; [| done].
      by apply list_elem_of_In, present_elem_of. }
    unfold bad_prop in Hgood.
    destruct (raw_name prop) as [| | | | | s |] eqn:Hname; try done.
    apply orb_false_iff in Hgood as [Htrim Htag].
    apply negb_false_iff, includes_val_true in Htag as (t & Ht & Htin).
    destruct Hinvalid as [Hempty | Htypebad].
    + rewrite (Hempty s Hname) in Htrim. done.
    + by apply (Htypebad t Ht).
Qed.

(** The error responses of the validation carry status 400 or 500. *)
Lemma validate_status (req : Request) (status : nat) (error : string) :
  validate req = inl (status, error) → status = 400 ∨ status = 500.
Proof.
  unfold validate.
  repeat match goal with
         | |- context [if ?c then _ else _] => destruct c
         | |- context [match ?x with _ => _ end] => destruct x
         end; intros [= <- <-]; auto.
Qed.

Context `{Libraries}.
Variable sink : nat → bool.
Variable has_flush : bool.

(** A request the validation lets through enters a stream function. *)
Lemma accepted_request_streams (req : Request) (accepted : string * Q * list FieldSpec)
    (g : rng) :
  validate req = inr accepted →
  ∃ st, post_api_generate sink has_flush req g = Streaming st.
Proof.
  intros Hok. unfold post_api_generate. rewrite Hok.
  destruct accepted as [[ft q] props].
  assert (Hft : ft ∈ supportedTypes).
  { revert Hok. unfold validate.
    destruct (includes_val supportedTypes (fileType req)) eqn:Htype; simpl; [| done].
    apply includes_val_true in Htype as (s & Hs & Hin). rewrite Hs.
    repeat match goal with
           | |- context [if ?c then _ else _] => destruct c
           | |- context [match ?x with _ => _ end] => destruct x
           end; try done; by intros [= <- _ _]. }
  unfold supportedTypes in Hft.
  apply elem_of_cons in Hft as [-> | Hft]; [by eexists |].
  apply elem_of_cons in Hft as [-> | Hft]; [by eexists |].
  apply list_elem_of_singleton in Hft as ->. by eexists.
Qed.

(** C8: an invalid request (unsupported format, size that is no number in
    1..1000, schema that is no non-empty array, a number of primary keys
    other than one, a field whose name is not a non-empty string or whose
    type is none of the eight tags) is answered with an error status, 400 or
    500, and the handler enters no stream function for it: no chunk is
    written. *)
Theorem invalid_request_rejected (req : Request) (g : rng) :
  invalid_request req →
  ∃ status error,
    post_api_generate sink has_flush req g = Rejected status error ∧
    (status = 400 ∨ status = 500) ∧
    stream_chunks written (post_api_generate sink has_flush req g) = [].
Proof.
  intros Hinvalid. unfold post_api_generate.
  destruct (validate req) as [[status error] | accepted] eqn:Hv.
  - exists status, error. split; [done |]. split; [| done].
    by apply (validate_status req status error).
  - by destruct (validate_accepts_valid req accepted Hv).
Qed.

End Validation.

(** A request for a format that is not supported. *)
Lemma invalid_request_rejected_witness :
  ∃ status error,
    Route.post_api_generate (H := Sample.libraries) (λ _, true) false
      {| Route.fileType := Route.JString "pdf";
         Route.fileSize := Route.JNumber (1 # 1)%Q;
         Route.properties := Route.IsArray [] |} 0%nat
      = Route.Rejected status error ∧
    (status = 400 ∨ status = 500)%nat ∧
    Route.stream_chunks written
      (Route.post_api_generate (H := Sample.libraries) (λ _, true) false
         {| Route.fileType := Route.JString "pdf";
            Route.fileSize := Route.JNumber (1 # 1)%Q;
            Route.properties := Route.IsArray [] |} 0%nat) = [].
Proof.
  apply (invalid_request_rejected (H := Sample.libraries)).
  left. intros s [= <-]. unfold Route.supportedTypes.
  rewrite !elem_of_cons, elem_of_nil. intros [? | [? | [? | []]]]; done.
Defined.

(* ===================================================================== *)
(** ** The model on concrete inputs                                       *)
(* ===================================================================== *)

Section Examples.
#[local] Existing Instance Sample.libraries.
Import Wire Sample.

(** A name pattern matches a word of the name, in any case. *)
Example rule_full_name :
  Rules.generateField_rule (field "Full Name" "number") = Text person_fullName.
Proof. vm_compute. reflexivity. Qed.

(** The underscore is a word character: no pattern matches, the type decides. *)
Example rule_snake_case :
  Rules.generateField_rule (field "first_name" "boolean") = DatatypeBoolean.
Proof. vm_compute. reflexivity. Qed.

(** The first matching pattern wins: email stands before address. *)
Example rule_priority :
  Rules.generateField_rule (field "email address" "address") = Text internet_email.
Proof. vm_compute. reflexivity. Qed.

(** The types email and phone have no case in the switch. *)
Example rule_email_type :
  Rules.generateField_rule (field "x" "email") = EmptyText.
Proof. vm_compute. reflexivity. Qed.

Example csv_string_comma : csv_string "a,b" = dq +:+ "a,b" +:+ dq.
Proof. vm_compute. reflexivity. Qed.

Example csv_string_quote :
  csv_string ("say " +:+ dq +:+ "hi" +:+ dq) = dq +:+ "say " +:+ dq +:+ dq +:+ "hi" +:+ dq +:+ dq +:+ dq.
Proof. vm_compute. reflexivity. Qed.

Example csv_string_plain : csv_string "plain" = "plain".
Proof. vm_compute. reflexivity. Qed.

(** Two records into a sink that reports capacity on the first: the first
    run of [generate] stops after one record. *)
Example csv_suspended :
  written (after_drains (Sample.full_at 1) false csv_encoder address_schema 2 0 0%nat)
  = [ "id,home address,n" +:+ nl;
      Sample.sample_uuid +:+ "," +:+ dq +:+ "12 Main Street, Apt 4" +:+ dq +:+ ",2" +:+ nl ].
Proof. vm_compute. reflexivity. Qed.

(** The drain event brings the second record and the end. *)
Example csv_resumed :
  let st := after_drains (Sample.full_at 1) false csv_encoder address_schema 2 1 0%nat in
  written st
  = [ "id,home address,n" +:+ nl;
      Sample.sample_uuid +:+ "," +:+ dq +:+ "12 Main Street, Apt 4" +:+ dq +:+ ",2" +:+ nl;
      Sample.sample_uuid +:+ "," +:+ dq +:+ "12 Main Street, Apt 4" +:+ dq +:+ ",6" +:+ nl ]
  ∧ ended st = true ∧ sentRecords st = 2%nat.
Proof. vm_compute. done. Qed.

(** The answer of the sink to the prologue is not looked at: the first
    record follows at once. *)
Example prologue_capacity_ignored :
  let st := after_drains (Sample.full_at 0) false csv_encoder [field "n" "number"] 2 0 0%nat in
  written st = ["n" +:+ nl; "0" +:+ nl; "1" +:+ nl] ∧ ended st = true.
Proof. vm_compute. done. Qed.

(** The frame of the JSON stream: a comma after the first record only. *)
Example json_frame :
  let st := after_drains (λ _, true) false json_encoder [field "n" "number"] 2 0 0%nat in
  written st
  = ["["; "{" +:+ dq +:+ "fields" +:+ dq +:+ ":true},";
     "{" +:+ dq +:+ "fields" +:+ dq +:+ ":true}"; "]"].
Proof. vm_compute. reflexivity. Qed.

(** A column named [__proto__]: the record owns no such key, the cell is
    the text of its prototype. *)
Example csv_proto_column :
  written (after_drains (λ _, true) false csv_encoder
             [id_field; field "__proto__" "string"] 1 0 0%nat)
  = [ "id,__proto__" +:+ nl; Sample.sample_uuid +:+ ",[object Object]" +:+ nl ].
Proof. vm_compute. reflexivity. Qed.

(** The Kelvin sign lower-cases to the letter k: the name reads kid, no
    pattern matches it and the type decides. *)
Example rule_kelvin_sign :
  Js.toLowerCase (kelvin +:+ "ID") = "kid" ∧
  Rules.generateField_rule (field (kelvin +:+ "ID") "number") = DatatypeNumber None.
Proof. vm_compute. done. Qed.

(** A [null] among the properties ends in the [catch] block. *)
Example null_property_is_500 :
  Route.post_api_generate (λ _, true) false
    {| Route.fileType := Route.JString "csv";
       Route.fileSize := Route.JNumber (1 # 1)%Q;
       Route.properties := Route.IsArray [None] |} 0%nat
  = Route.Rejected 500 Route.msg_internal.
Proof. vm_compute. reflexivity. Qed.

(** A request with one uuid key passes the validation. *)
Example valid_request_accepted :
  Route.validate
    {| Route.fileType := Route.JString "csv";
       Route.fileSize := Route.JNumber (1 # 1)%Q;
       Route.properties := Route.IsArray
         [Some {| Route.raw_name := Route.JString "id";
                  Route.raw_type := Route.JString "uuid";
                  Route.raw_primaryKey := Route.JBoolean true |}] |}
  = inr ("csv", (1 # 1)%Q, [Sample.id_field]).
Proof. vm_compute. reflexivity. Qed.

End Examples.

(* ===================================================================== *)
(** ** Further properties of the streaming encoder                        *)
(* ===================================================================== *)

Section SessionLife.
Context `{Libraries}.
#[local] Open Scope nat_scope.
Variable sink : nat → bool.
Variable has_flush : bool.
Variable e : encoder.
Variable properties : list FieldSpec.
Variable recordCount : nat.
Variable g0 : rng.

(** The quotient by 1000 steps up exactly at the multiples of 1000. *)
Lemma div_1000_succ (a : nat) :
  S a / 1000 = if Nat.eqb (S a mod 1000) 0 then S (a / 1000) else a / 1000.
Proof.
  pose proof (Nat.div_mod_eq a 1000) as Ha.
  pose proof (Nat.mod_upper_bound a 1000 ltac:(lia)) as Hr.
  destruct (Nat.eq_dec (a mod 1000) 999) as [Hlast | Hnot].
  - assert (Hq : S a / 1000 = S (a / 1000)).
    { symmetry. apply (Nat.div_unique _ _ _ 0); lia. }
    assert (Hm : S a mod 1000 = 0).
    { symmetry. apply (Nat.mod_unique _ _ (S (a / 1000))); lia. }
    by rewrite Hq, Hm.
  - assert (Hq : S a / 1000 = a / 1000).
    { symmetry. apply (Nat.div_unique _ _ _ (S (a mod 1000))); lia. }
    assert (Hm : S a mod 1000 = S (a mod 1000)).
    { symmetry. apply (Nat.mod_unique _ _ (a / 1000)); lia. }
    by rewrite Hq, Hm.
Qed.

Lemma while_loop_flushes (turns : nat) (ok : bool) (st : Session) :
  flushes st = flushes_due has_flush st →
  flushes (while_loop sink has_flush e properties recordCount turns ok st).2
  = flushes_due has_flush (while_loop sink has_flush e properties recordCount turns ok st).2.
Proof.
  revert ok st. induction turns as [| turns IH]; intros ok st Hst; simpl; [done |].
  destruct (Nat.ltb (sentRecords st) recordCount && ok); [| done].
  unfold loop_body. destruct (generateRecord properties (random st)) as [record g'].
  apply IH. unfold flushes_due in *. cbn [sentRecords flushes].
  rewrite div_1000_succ. destruct has_flush.
  - rewrite andb_true_r. destruct (Nat.eqb _ 0); by rewrite Hst.
  - by rewrite andb_false_r.
Qed.

Lemma generate_flushes (st : Session) :
  flushes st = flushes_due has_flush st →
  flushes (generate sink has_flush e properties recordCount st)
  = flushes_due has_flush (generate sink has_flush e properties recordCount st).
Proof.
  intros Hst. unfold generate.
  pose proof (while_loop_flushes (recordCount - sentRecords st) true st Hst) as Hloop.
  destruct (while_loop sink has_flush e properties recordCount
              (recordCount - sentRecords st) true st) as [ok st'].
  simpl in Hloop. by destruct (Nat.ltb (sentRecords st') recordCount).
Qed.

(** X2: the response is flushed once per full thousand of records sent, at
    every state a session reaches, and never when the response has no
    [flush] method. *)
Theorem flush_every_thousand (k : nat) :
  let st := after_drains sink has_flush e properties recordCount k g0 in
  flushes st = if has_flush then sentRecords st / 1000 else 0.
Proof.
  cbv zeta. change (flushes ?st = _) with (flushes st = flushes_due has_flush st).
  induction k as [| k IH]; simpl.
  - unfold stream. apply generate_flushes. unfold flushes_due. simpl.
    by destruct has_flush.
  - unfold on_drain. destruct (drain_listener _); [| exact IH].
    apply generate_flushes. exact IH.
Qed.

(** X4: once the records are all sent the session has ended, and drain events
    that arrive later change nothing: no chunk is written after the end. *)
Theorem drains_after_end_ignored (k : nat) :
  after_drains sink has_flush e properties recordCount (recordCount + k) g0
  = after_drains sink has_flush e properties recordCount recordCount g0 ∧
  ended (after_drains sink has_flush e properties recordCount recordCount g0) = true ∧
  sentRecords (after_drains sink has_flush e properties recordCount recordCount g0)
  = recordCount.
Proof.
  destruct (after_drains_complete sink has_flush e properties recordCount g0
              recordCount ltac:(lia)) as (Hsent & Hend & Hdl & _).
  cbv zeta in *. split; [| done].
  induction k as [| k IH]; [by rewrite Nat.add_0_r |].
  rewrite Nat.add_succ_r. simpl. rewrite IH. by apply on_drain_idle.
Qed.

(** X6: a drain event only appends to what was written, and never lowers the
    count of records sent. *)
Theorem output_only_grows (k : nat) :
  let st := after_drains sink has_flush e properties recordCount k g0 in
  let st' := after_drains sink has_flush e properties recordCount (S k) g0 in
  sentRecords st ≤ sentRecords st' ∧
  ∃ more, written st' = written st ++ more.
Proof.
  cbv zeta. simpl.
  pose proof (after_drains_quiescent sink has_flush e properties recordCount g0 k) as Hq.
  destruct (drain_listener (after_drains sink has_flush e properties recordCount k g0))
    eqn:Hdl.
  - destruct (on_drain_resumes sink has_flush e properties recordCount g0 _ Hq Hdl)
      as (_ & Hprog & _ & Hwr). cbv zeta in *.
    split; [lia |]. eexists. exact Hwr.
  - rewrite on_drain_idle by done. split; [done |]. exists []. by rewrite app_nil_r.
Qed.

(** X5: if no write of a record before the last reports capacity, the stream
    function itself sends every record and ends the response, without any
    drain event; what the sink answers to the prologue and to the last record
    does not matter. *)
Theorem no_backpressure_no_suspension :
  (∀ i, 0 < i < recordCount → sink i = true) →
  let st := stream sink has_flush e properties recordCount g0 in
  sentRecords st = recordCount ∧ ended st = true ∧ drain_listener st = false ∧
  written st = enc_prologue e properties
    :: render_from e properties recordCount 0 recordCount g0 ++ epilogue_chunks e.
Proof.
  intros Hready. cbv zeta.
  destruct (stream_spec sink has_flush e properties recordCount g0)
    as [(Hle & _ & Hwr & Hdl & Hend & Hcap) _]. cbv zeta in *.
  set (st := stream sink has_flush e properties recordCount g0) in *.
  assert (Hsent : sentRecords st = recordCount).
  { destruct (Nat.lt_ge_cases (sentRecords st) recordCount) as [Hlt | Hge]; [| lia].
    destruct (Hcap Hlt) as [Hpos Hfull]. rewrite Hready in Hfull by lia. done. }
  rewrite Hsent in *. rewrite Nat.ltb_irrefl in Hdl, Hend. simpl in Hend.
  rewrite Hend in Hwr. done.
Qed.

Lemma capacity_reports_ready (a b : nat) :
  a ≤ b → (∀ i, a < i ≤ b → sink i = true) →
  capacity_reports sink b = capacity_reports sink a.
Proof.
  induction b as [| b IH]; intros Hab Hready.
  - by replace a with 0 by lia.
  - destruct (Nat.eq_dec a (S b)) as [-> | Hne]; [done |].
    simpl. rewrite (Hready (S b)) by lia. rewrite Nat.add_0_r.
    apply IH; [lia |]. intros i Hi. apply Hready. lia.
Qed.

Lemma capacity_reports_mono (a b : nat) :
  a ≤ b → capacity_reports sink a ≤ capacity_reports sink b.
Proof.
  induction 1 as [| b Hab IH]; [done |]. simpl. lia.
Qed.

(** A session that waits after [n] records has seen one report of capacity
    more than it has had drain events; one that has ended has had at least
    as many drain events as there were reports before the last record. *)
Lemma drains_count_reports (k : nat) :
  let st := after_drains sink has_flush e properties recordCount k g0 in
  (sentRecords st < recordCount → capacity_reports sink (sentRecords st) = S k) ∧
  (sentRecords st = recordCount → capacity_reports sink (recordCount - 1) ≤ k).
Proof.
  cbv zeta. induction k as [| k IH].
  - destruct (stream_spec sink has_flush e properties recordCount g0)
      as [(_ & _ & _ & _ & _ & Hcap) Hready]. simpl.
    set (st := stream sink has_flush e properties recordCount g0) in *. split.
    + intros Hlt. destruct (Hcap Hlt) as [Hpos Hfull].
      destruct (sentRecords st) as [| n] eqn:Hn; [lia |].
      simpl. rewrite Hfull.
      rewrite (capacity_reports_ready 0 n) by (try lia; intros i Hi; apply Hready; lia).
      done.
    + intros Heq.
      rewrite (capacity_reports_ready 0 (recordCount - 1))
        by (try lia; intros i Hi; apply Hready; lia).
      done.
  - pose proof (after_drains_quiescent sink has_flush e properties recordCount g0 k) as Hq.
    simpl.
    set (st := after_drains sink has_flush e properties recordCount k g0) in *.
    destruct (drain_listener st) eqn:Hdl.
    + destruct (on_drain_resumes sink has_flush e properties recordCount g0 st Hq Hdl)
        as ((Hle' & _ & _ & _ & _ & Hcap') & Hprog & Hready & _). cbv zeta in *.
      set (st' := on_drain sink has_flush e properties recordCount st) in *.
      assert (Hlt : sentRecords st < recordCount) by lia.
      destruct IH as [IH _]. specialize (IH Hlt). split.
      * intros Hlt'. destruct (Hcap' Hlt') as [Hpos Hfull].
        destruct (sentRecords st') as [| n] eqn:Hn; [lia |].
        simpl. rewrite Hfull.
        rewrite (capacity_reports_ready (sentRecords st) n)
          by (try lia; intros i Hi; apply Hready; lia).
        lia.
      * intros Heq.
        rewrite (capacity_reports_ready (sentRecords st) (recordCount - 1))
          by (try lia; intros i Hi; apply Hready; lia).
        lia.
    + rewrite on_drain_idle by done.
      destruct Hq as (Hle & _ & _ & Hdl' & _). rewrite Hdl in Hdl'.
      symmetry in Hdl'. apply Nat.ltb_ge in Hdl'.
      destruct IH as [_ IH]. split; [lia |]. intros Heq. specialize (IH Heq). lia.
Qed.

(** X3: a session has ended after [k] drain events exactly when [k] is at
    least the number of record writes before the last that reported
    capacity: every such report costs one drain event, and nothing else
    does. *)
Theorem drains_needed (k : nat) :
  ended (after_drains sink has_flush e properties recordCount k g0) = true
  ↔ capacity_reports sink (recordCount - 1) ≤ k.
Proof.
  destruct (after_drains_quiescent sink has_flush e properties recordCount g0 k)
    as (Hle & _ & _ & _ & Hend & _).
  destruct (drains_count_reports k) as [Hwait Hdone]. cbv zeta in *.
  set (st := after_drains sink has_flush e properties recordCount k g0) in *.
  rewrite Hend. destruct (Nat.ltb_spec (sentRecords st) recordCount) as [Hlt | Hge]; simpl.
  - split; [done |]. intros Hk. specialize (Hwait Hlt).
    pose proof (capacity_reports_mono (sentRecords st) (recordCount - 1) ltac:(lia)). lia.
  - split; [| done]. intros _. apply Hdone. lia.
Qed.

End SessionLife.

Section SessionLifeExample.
#[local] Existing Instance Sample.libraries.

(** Three records into a sink that is always ready. *)
Lemma no_backpressure_no_suspension_witness :
  let st := stream (λ _, true) false csv_encoder Sample.schema 3 0%nat in
  sentRecords st = 3%nat ∧ ended st = true ∧ drain_listener st = false ∧
  written st = enc_prologue csv_encoder Sample.schema
    :: render_from csv_encoder Sample.schema 3 0 3 0%nat ++ epilogue_chunks csv_encoder.
Proof.
  apply (no_backpressure_no_suspension (H := Sample.libraries) (λ _, true) false
           csv_encoder Sample.schema 3 0%nat).
  reflexivity.
Defined.

End SessionLifeExample.

Section XmlFormat.
Context `{Libraries}.
#[local] Open Scope nat_scope.
Import Wire.
Variable sink : nat → bool.
Variable has_flush : bool.
Variable properties : list FieldSpec.
Variable recordCount : nat.
Variable g0 : rng.



End XmlFormat.

(* ===================================================================== *)
(** ** Further properties of the field and record synthesizers            *)
(* ===================================================================== *)

Section FieldValues.
Context `{Libraries}.

Lemma educationLevels_nth (i : Z) :
  (0 ≤ i < 7)%Z → nth (Z.to_nat i) educationLevels "" ∈ educationLevels.
Proof.
  intros Hi. assert (Hn : (Z.to_nat i < 7)%nat) by lia.
  revert Hn. generalize (Z.to_nat i). intros n Hn. unfold educationLevels.
  do 7 (destruct n as [| n]; [apply list_elem_of_In; simpl; auto 10 |]). lia.
Qed.

(** X12: [getRandomEducationLevel] always returns one of the seven levels: the
    index computed from [Math.random()] stays inside the array. *)
Theorem education_level_in_list (g : rng) :
  (getRandomEducationLevel g).1 ∈ educationLevels.
Proof.
  unfold getRandomEducationLevel. destruct (Math_random g) as [r g'].
  cbv beta iota zeta delta [fst]. apply educationLevels_nth.
  change (Z.of_nat (length educationLevels)) with 7%Z.
  pose proof (Z.mod_pos_bound r (2 ^ 53) ltac:(lia)) as Hr. split.
  - apply Z.div_pos; lia.
  - apply Z.div_lt_upper_bound; lia.
Qed.

(** X11: a field whose name matches no pattern and whose type has no case in
    the switch gets the empty string, and the random source is not used.
    Of the eight types the validation accepts this holds for [email] and
    [phone]. *)
Theorem unhandled_type_gives_empty_string (prop : FieldSpec) (g : rng) :
  Rules.name_tier prop = None →
  type prop ∉ ["string"; "number"; "boolean"; "date"; "address"; "uuid"] →
  generateField prop g = (VString "", g).
Proof.
  intros Htier Htype. unfold generateField.
  rewrite generateField_rule_tiers, Htier, type_rule_fallback by done. done.
Qed.

Lemma assign_scalar (key : string) (v : value) (record : jsobject) :
  is_scalar v = true →
  map_Forall (λ _ v, is_scalar v = true) (own record) →
  map_Forall (λ _ v, is_scalar v = true) (own (assign key v record)).
Proof.
  intros Hv Hrec. destruct (decide (key = "__proto__")) as [-> | Hkey].
  - by rewrite own_assign_proto.
  - rewrite own_assign by done. by apply map_Forall_insert_2.
Qed.

Lemma forEach_field_scalar (properties : list FieldSpec) (record : jsobject)
    (g : rng) :
  (∀ prop, prop ∈ properties → Rules.generateField_rule prop ≠ Birthdate) →
  map_Forall (λ _ v, is_scalar v = true) (own record) →
  map_Forall (λ _ v, is_scalar v = true)
    (own (forEach_field generateField properties record g).1).
Proof.
  revert record g. induction properties as [| p rest IH]; intros record g Hrules Hrec.
  - done.
  - simpl. pose proof (run_scalar (Rules.generateField_rule p) g) as Hv.
    unfold generateField at 1. destruct (run (Rules.generateField_rule p) g) as [v g'].
    apply IH.
    + intros prop Hin. apply Hrules. by apply elem_of_cons; right.
    + apply assign_scalar; [| done]. apply Hv, Hrules. by apply elem_of_cons; left.
Qed.

(** X10: if no field name of the schema selects the birth-date generator, every
    value of a synthesized record is a string, a number or a boolean. *)
Theorem record_values_scalar (properties : list FieldSpec) (g : rng) :
  (∀ prop, prop ∈ properties → Rules.generateField_rule prop ≠ Birthdate) →
  ∀ key v, own (generateRecord properties g).1 !! key = Some v → is_scalar v = true.
Proof.
  intros Hrules.
  change (map_Forall (λ _ v, is_scalar v = true) (own (generateRecord properties g).1)).
  unfold generateRecord, generateRecord_with.
  pose proof (forEach_field_scalar properties empty_object g Hrules (map_Forall_empty _))
    as Hfor.
  destruct (forEach_field generateField properties empty_object g) as [record g'].
  simpl in Hfor.
  unfold override_primaryKey. destruct (List.find primaryKey properties) as [pk |]; [| done].
  destruct (String.eqb (type pk) "number").
  - pose proof (run_scalar (DatatypeNumber (Some (10, 1000000000000000000)%Z)) g'
                  ltac:(done)) as Hv.
    destruct (run _ g') as [v g'']. simpl. by apply assign_scalar.
  - destruct (String.eqb (type pk) "uuid" || String.eqb (type pk) "string"); [| done].
    pose proof (run_scalar UuidV4 g' ltac:(done)) as Hv.
    destruct (run _ g') as [v g'']. simpl. by apply assign_scalar.
Qed.

End FieldValues.

Section FieldValuesExamples.
#[local] Existing Instance Sample.libraries.

(** A field of type [email] whose name is no keyword. *)
Lemma unhandled_type_gives_empty_string_witness :
  generateField (Sample.field "x" "email") 0%nat = (VString "", 0%nat).
Proof.
  apply (unhandled_type_gives_empty_string (H := Sample.libraries)).
  - reflexivity.
  - simpl. rewrite !elem_of_cons, elem_of_nil.
    intros [? | [? | [? | [? | [? | [? | []]]]]]]; done.
Defined.

(** The sample schema: the value under [id] is a string. *)
Lemma record_values_scalar_witness :
  is_scalar (VString Sample.sample_uuid) = true.
Proof.
  apply (record_values_scalar (H := Sample.libraries) Sample.schema 0%nat) with (key := "id").
  - intros prop Hin. unfold Sample.schema in Hin.
    apply elem_of_cons in Hin as [-> | Hin]; [by vm_compute |].
    apply list_elem_of_singleton in Hin as ->. by vm_compute.
  - vm_compute. reflexivity.
Defined.

End FieldValuesExamples.

Section RecordShape.
Context `{Libraries}.
Variable gf : FieldSpec → rng → value * rng.

Lemma forEach_field_app (l1 l2 : list FieldSpec) (record : jsobject) (g : rng) :
  forEach_field gf (l1 ++ l2) record g
  = forEach_field gf l2 (forEach_field gf l1 record g).1 (forEach_field gf l1 record g).2.
Proof.
  revert record g. induction l1 as [| p l1 IH]; intros record g; simpl; [done |].
  destruct (gf p g) as [v g']. apply IH.
Qed.

(** X8: the own keys of a synthesized record are the field names other than
    [__proto__], so fields that share a name share one entry; with pairwise
    distinct names, none of them [__proto__], it has one entry per field. *)
Theorem record_entries (properties : list FieldSpec) (g : rng) :
  dom (own (generateRecord_with gf properties g).1)
    = names_of properties ∖ {["__proto__"]} ∧
  (NoDup (name <$> properties) → "__proto__" ∉ name <$> properties →
     size (own (generateRecord_with gf properties g).1) = length properties).
Proof.
  pose proof (generateRecord_keys gf properties g) as Hdom.
  split; [exact Hdom |]. intros Hnodup Hproto.
  rewrite <- size_dom, Hdom. unfold own_names_of, names_of.
  assert (Hsame : (list_to_set (name <$> properties) : gset string) ∖ {["__proto__"]}
                  = list_to_set (name <$> properties)) by set_solver.
  rewrite Hsame, size_list_to_set by done. by rewrite length_fmap.
Qed.

(** X9: when several fields share a name other than [__proto__], the loop
    over the fields leaves under that name the value generated for the last
    of them, from the state the random source had when its turn came. *)
Theorem duplicate_names_last_wins (before after : list FieldSpec) (prop : FieldSpec)
    (g : rng) :
  name prop ≠ "__proto__" →
  name prop ∉ name <$> after →
  own (forEach_field gf (before ++ prop :: after) empty_object g).1 !! name prop
  = Some (gf prop (forEach_field gf before empty_object g).2).1.
Proof.
  intros Hname Hlast. rewrite forEach_field_app.
  destruct (forEach_field gf before empty_object g) as [record g1]. simpl.
  destruct (gf prop g1) as [v g2]. simpl.
  rewrite forEach_field_frame by done. by rewrite lookup_assign_eq.
Qed.

End RecordShape.

Section RecordShapeExamples.
#[local] Existing Instance Sample.libraries.

(** The two fields of the sample schema have different names. *)
Lemma record_entries_witness :
  size (own (generateRecord_with (H := Sample.libraries) generateField
               Sample.schema 0%nat).1) = length Sample.schema.
Proof.
  apply (proj2 (record_entries (H := Sample.libraries) generateField Sample.schema 0%nat)).
  - unfold Sample.schema. simpl. repeat constructor; set_solver.
  - unfold Sample.schema. simpl. set_solver.
Defined.

(** Two fields called [n]: the boolean one comes last. *)
Lemma duplicate_names_last_wins_witness :
  own (forEach_field (H := Sample.libraries) generateField
         ([Sample.field "n" "number"] ++ Sample.field "n" "boolean" :: [])
         empty_object 0%nat).1
    !! name (Sample.field "n" "boolean")
  = Some (generateField (Sample.field "n" "boolean")
            (forEach_field (H := Sample.libraries) generateField
               [Sample.field "n" "number"] empty_object 0%nat).2).1.
Proof.
  apply (duplicate_names_last_wins (H := Sample.libraries) generateField
           [Sample.field "n" "number"] [] (Sample.field "n" "boolean") 0%nat).
  - discriminate.
  - simpl. apply not_elem_of_nil.
Defined.

End RecordShapeExamples.

(* ===================================================================== *)
(** ** Further properties of the CSV escaping                             *)
(* ===================================================================== *)

Section CsvCells.
Import Wire.

Lemma drop_last_app_dq (s : string) : drop_last (s +:+ dq) = s.
Proof.
  induction s as [| c s IH]; [done |].
  rewrite append_cons. destruct s as [| c' s]; [done |].
  rewrite append_cons in *. simpl drop_last. simpl in IH. by rewrite IH.
Qed.

(** X15: the escaping of [streamCSV] loses nothing: reading a cell back gives
    the value it was made from, so two different string values never give the
    same cell. *)
Theorem csv_string_round_trip :
  (∀ s, csv_read (csv_string s) = s) ∧
  (∀ s t, csv_string s = csv_string t → s = t).
Proof.
  assert (Hread : ∀ s, csv_read (csv_string s) = s).
  { intros s. rewrite csv_string_spec. destruct (has_special s) eqn:Hs.
    - change (dq +:+ double_quotes s +:+ dq)
        with (String dquote (double_quotes s +:+ dq)).
      unfold csv_read. rewrite Ascii.eqb_refl, drop_last_app_dq.
      apply undouble_double_quotes.
    - destruct s as [| c s]; [done |]. simpl in Hs.
      apply orb_false_iff in Hs as [Hc _]. unfold is_special in Hc.
      apply orb_false_iff in Hc as [Hc _]. apply orb_false_iff in Hc as [Hc _].
      unfold csv_read. by rewrite Hc. }
  split; [exact Hread |].
  intros s t Heq. rewrite <- (Hread s), <- (Hread t). by rewrite Heq.
Qed.

Lemma uuid_char_not_special (i : nat) (c : ascii) :
  uuid_char_ok i c = true → is_special c = false.
Proof.
  unfold is_special.
  destruct (Ascii.eqb_spec c dquote) as [-> | _];
    [| destruct (Ascii.eqb_spec c comma) as [-> | _];
       [| destruct (Ascii.eqb_spec c newline) as [-> | _]; [| done]]];
    unfold uuid_char_ok;
    destruct (Nat.eqb i 8 || Nat.eqb i 13 || Nat.eqb i 18 || Nat.eqb i 23);
    try (by vm_compute);
    destruct (Nat.eqb i 14); try (by vm_compute);
    destruct (Nat.eqb i 19); by vm_compute.
Qed.

Lemma uuid_chars_not_special (i : nat) (s : string) :
  uuid_chars_ok i s = true → has_special s = false.
Proof.
  revert i. induction s as [| c s IH]; intros i; simpl; [done |].
  intros [Hc Hs]%andb_true_iff.
  by rewrite (uuid_char_not_special i c Hc), (IH (S i) Hs).
Qed.

(** X16: a version-4 UUID holds no quote, comma or newline, so the CSV cell of
    a uuid (the primary key of type [uuid] or [string], for one) is the UUID
    itself, never wrapped in quotes. *)
Theorem uuid_cell_unquoted (u : string) :
  is_uuid_v4 u = true → csv_string u = u.
Proof.
  intros Hu. rewrite csv_string_spec.
  by rewrite (uuid_chars_not_special 0 u Hu).
Qed.

(** The sample UUID. *)
Lemma uuid_cell_unquoted_witness : csv_string Sample.sample_uuid = Sample.sample_uuid.
Proof. apply uuid_cell_unquoted. reflexivity. Defined.

End CsvCells.

(* ===================================================================== *)
(** ** Further properties of the estimator and the validation             *)
(* ===================================================================== *)

Section EstimatorOrder.

Lemma estimate_le (size size' avg avg' : Q) :
  (0 <= size)%Q → (size <= size')%Q → (0 < avg')%Q → (avg' <= avg)%Q →
  (estimateRecordCount size (Some avg) ≤ estimateRecordCount size' (Some avg'))%Z.
Proof.
  intros Hsize Hle Havg' Havg. rewrite !estimate_floor.
  assert (Hpos : (0 < avg)%Q) by (eapply Qlt_le_trans; eassumption).
  apply Qfloor_resp_le.
  assert (Hb : (0 <= size * (1024 # 1) * (1024 # 1))%Q).
  { repeat apply Qmult_le_0_compat; done. }
  assert (Hbb : (size * (1024 # 1) * (1024 # 1) <= size' * (1024 # 1) * (1024 # 1))%Q).
  { repeat apply Qmult_le_compat_r; done. }
  apply Qle_shift_div_l; [exact Havg' |].
  apply Qle_trans with (size * (1024 # 1) * (1024 # 1))%Q; [| exact Hbb].
  apply Qle_trans with (size * (1024 # 1) * (1024 # 1) / avg * avg)%Q.
  - apply Qmult_le_compat_nonneg.
    + split; [| apply Qle_refl]. apply Qle_shift_div_l; [exact Hpos |].
      by rewrite Qmult_0_l.
    + split; [by apply Qlt_le_weak | exact Havg].
  - assert (Hne : ¬ (avg == 0)%Q).
    { intros Heq. rewrite Heq in Hpos. by apply Qlt_irrefl in Hpos. }
    assert (E : (size * (1024 # 1) * (1024 # 1) / avg * avg
                 == size * (1024 # 1) * (1024 # 1))%Q) by (field; exact Hne).
    rewrite E. apply Qle_refl.
Qed.

(** X17: the estimate grows with the size and shrinks with the average record
    size: a larger budget never gives fewer records, a larger record never
    gives more. *)
Theorem estimate_monotone (size size' avg avg' : Q) :
  (0 <= size)%Q → (size <= size')%Q → (0 < avg')%Q → (avg' <= avg)%Q →
  (estimateRecordCount size (Some avg) ≤ estimateRecordCount size' (Some avg'))%Z.
Proof. apply estimate_le. Qed.

(** One and two megabytes at 200 and 100 bytes per record. *)
Lemma estimate_monotone_witness :
  (estimateRecordCount (1 # 1)%Q (Some (200 # 1)%Q)
   ≤ estimateRecordCount (2 # 1)%Q (Some (100 # 1)%Q))%Z.
Proof. apply estimate_monotone; by vm_compute. Defined.

End EstimatorOrder.

Section Acceptance.
Import Route.
#[local] Open Scope nat_scope.

(** What the checks have established when the validation lets a request
    through. *)
Lemma validate_inr_inv (req : Request) (ft : string) (q : Q) (props : list FieldSpec) :
  validate req = inr (ft, q, props) →
  ∃ elems keys,
    fileType req = JString ft ∧ ft ∈ supportedTypes ∧
    fileSize req = JNumber q ∧ Qle_bool 1 q = true ∧ Qle_bool q maxFileSizeMB = true ∧
    properties req = IsArray elems ∧ elems ≠ [] ∧
    filter_primaryKey elems = Some keys ∧ length keys = 1 ∧
    existsb bad_prop (present elems) = false ∧
    props = map field_of (present elems).
Proof.
  unfold validate.
  destruct (includes_val supportedTypes (fileType req)) eqn:Htype; simpl; [| done].
  apply includes_val_true in Htype as (s & Hs & Hin).
  destruct (bad_fileSize (fileSize req)) eqn:Hsize; [done |].
  destruct (properties req) as [v | elems] eqn:Hprops; [done |].
  destruct (Nat.eqb_spec (length elems) 0) as [Hempty | Hnonempty]; [done |].
  destruct (filter_primaryKey elems) as [keys |] eqn:Hkeys; [| done].
  destruct (Nat.ltb_spec 1 (length keys)) as [Hmany | Hfew]; [done |].
  destruct (Nat.eqb_spec (length keys) 0) as [Hnone | Hsome]; [done |].
  destruct (existsb bad_prop (present elems)) eqn:Hbad; [done |].
  unfold bad_fileSize in Hsize.
  destruct (fileSize req) as [| | | q' | | |]; try done.
  apply orb_false_iff in Hsize as [Hlo Hhi]. apply negb_false_iff in Hlo, Hhi.
  rewrite Hs. simpl. intros [= <- <- <-].
  exists elems, keys. repeat split; try done; try lia.
  by intros ->.
Qed.

(** The marked elements become the fields with [primaryKey] set. *)
Lemma filter_primaryKey_fields (elems : list (option RawProp)) (keys : list RawProp) :
  filter_primaryKey elems = Some keys →
  List.filter primaryKey (map field_of (present elems)) = map field_of keys.
Proof.
  revert keys. induction elems as [| [prop |] elems IH]; intros keys; simpl.
  - by intros [= <-].
  - destruct (filter_primaryKey elems) as [keys' |]; [| done].
    intros [= <-]. unfold present in *. simpl.
    destruct (truthy (raw_primaryKey prop)); simpl; by rewrite (IH keys' eq_refl).
  - done.
Qed.

(** X18: a request that passes the validation hands the stream functions what
    they rely on: a supported format, a size between 1 and 1000, a schema
    that is not empty, exactly one field with [primaryKey] set, and for every
    field a name that is not blank and one of the eight types. *)
Theorem validation_establishes_preconditions (req : Request) (ft : string) (q : Q)
    (props : list FieldSpec) :
  validate req = inr (ft, q, props) →
  ft ∈ supportedTypes ∧
  (1 <= q ∧ q <= 1000 # 1)%Q ∧
  props ≠ [] ∧
  (∃ pk, List.filter primaryKey props = [pk]) ∧
  Forall (λ prop, Js.trim_is_empty (name prop) = false ∧ type prop ∈ validTypes) props.
Proof.
  intros Hok.
  destruct (validate_inr_inv req ft q props Hok)
    as (elems & keys & Hft & Hin & Hq & Hlo & Hhi & Hprops & Hne & Hkeys & Hlen & Hbad & ->).
  destruct (filter_primaryKey_Some _ _ Hkeys) as [Hnonnull _].
  split; [exact Hin |]. split; [split; by apply Qle_bool_iff |]. split.
  { destruct elems as [| [prop |] elems]; [done | done |].
    by inversion Hnonnull. }
  split.
  { rewrite (filter_primaryKey_fields _ _ Hkeys).
    destruct keys as [| key [| ? ?]]; [done | by exists (field_of key) | done]. }
  apply Forall_forall. intros prop Hprop.
  apply list_elem_of_fmap in Hprop as (raw & -> & Hraw).
  assert (Hgood : bad_prop raw = false).
  { destruct (bad_prop raw) eqn:Hp; [| done].
    assert (existsb bad_prop (present elems) = true); [| congruence].
    apply existsb_exists. exists raw. split; [by apply list_elem_of_In | done]. }
  unfold bad_prop in Hgood.
  destruct (raw_name raw) as [| | | | | s |] eqn:Hname; try done.
  apply orb_false_iff in Hgood as [Htrim Htag].
  apply negb_false_iff, includes_val_true in Htag as (t & Ht & Htin).
  unfold field_of. rewrite Hname, Ht. simpl. done.
Qed.

(** X20: an accepted request asks for at least 3495 and at most 10485760
    records: the estimate is computed from a size between 1 and 1000 and an
    average record size of 100, 200 or 300. *)
Theorem accepted_record_count_bounds (req : Request) (ft : string) (q : Q)
    (props : list FieldSpec) :
  validate req = inr (ft, q, props) →
  (3495 ≤ estimateRecordCount q (Some (averageRecordSizeOf ft)) ≤ 10485760)%Z.
Proof.
  intros Hok.
  destruct (validate_inr_inv req ft q props Hok)
    as (_ & _ & _ & _ & _ & Hlo & Hhi & _).
  apply Qle_bool_iff in Hlo, Hhi.
  assert (Havg : (0 < averageRecordSizeOf ft ∧ (100 # 1) <= averageRecordSizeOf ft
                  ∧ averageRecordSizeOf ft <= (300 # 1))%Q).
  { unfold averageRecordSizeOf.
    destruct (String.eqb ft "csv"); [by vm_compute |].
    destruct (String.eqb ft "xml"); by vm_compute. }
  destruct Havg as (Hpos & Hmin & Hmax). split.
  - change 3495%Z with (estimateRecordCount (1 # 1)%Q (Some (300 # 1)%Q)).
    apply estimate_le; done.
  - change 10485760%Z with (estimateRecordCount (1000 # 1)%Q (Some (100 # 1)%Q)).
    apply estimate_le; try done.
    apply Qle_trans with (1 # 1)%Q; done.
Qed.

(** X21: a field whose name is blank (empty or white space only) makes the
    handler answer with an error: the validation lets no such request
    through, whatever else the request holds. *)
Theorem blank_name_rejected (req : Request) (elems : list (option RawProp))
    (prop : RawProp) (s : string) :
  properties req = IsArray elems → Some prop ∈ elems →
  raw_name prop = JString s → Js.trim_is_empty s = true →
  ∃ status error, validate req = inl (status, error) ∧ (status = 400 ∨ status = 500).
Proof.
  intros Hprops Hin Hname Hblank.
  destruct (validate req) as [[status error] | [[ft q] props]] eqn:Hv.
  - exists status, error. split; [done |]. by apply (validate_status req status error).
  - exfalso.
    destruct (validate_inr_inv req ft q props Hv)
      as (elems' & keys & _ & _ & _ & _ & _ & Hprops' & _ & _ & _ & Hbad & _).
    rewrite Hprops in Hprops'. injection Hprops' as <-.
    assert (existsb bad_prop (present elems) = true); [| congruence].
    apply existsb_exists. exists prop. split.
    + by apply list_elem_of_In, present_elem_of.
    + unfold bad_prop. by rewrite Hname, Hblank.
Qed.

Context `{Libraries}.
Variable sink : nat → bool.
Variable has_flush : bool.

(** X19: an accepted request enters the stream function of its format with the
    validated fields and the estimated count; the last branch of the handler,
    which answers that the format is not supported, is never taken. *)
Theorem accepted_request_enters_stream (req : Request) (ft : string) (q : Q)
    (props : list FieldSpec) (g : rng) :
  validate req = inr (ft, q, props) →
  let n := Z.to_nat (estimateRecordCount q (Some (averageRecordSizeOf ft))) in
  (ft = "json" ∧
   post_api_generate sink has_flush req g = Streaming (streamJSON sink has_flush props n g)) ∨
  (ft = "csv" ∧
   post_api_generate sink has_flush req g = Streaming (streamCSV sink has_flush props n g)) ∨
  (ft = "xml" ∧
   post_api_generate sink has_flush req g = Streaming (streamXML sink has_flush props n g)).
Proof.
  intros Hok. cbv zeta.
  destruct (validate_inr_inv req ft q props Hok) as (_ & _ & _ & Hin & _).
  unfold post_api_generate. rewrite Hok. unfold supportedTypes in Hin.
  apply elem_of_cons in Hin as [-> | Hin]; [by left |].
  apply elem_of_cons in Hin as [-> | Hin]; [right; by left |].
  apply list_elem_of_singleton in Hin as ->. right; by right.
Qed.

End Acceptance.

Section AcceptanceExamples.
Import Route.
#[local] Existing Instance Sample.libraries.

(** The sample request. *)
Lemma validation_establishes_preconditions_witness :
  "csv" ∈ supportedTypes ∧
  (1 <= 1 # 1 ∧ 1 # 1 <= 1000 # 1)%Q ∧
  Sample.schema ≠ [] ∧
  (∃ pk, List.filter primaryKey Sample.schema = [pk]) ∧
  Forall (λ prop, Js.trim_is_empty (name prop) = false ∧ type prop ∈ validTypes)
    Sample.schema.
Proof.
  apply (validation_establishes_preconditions Sample.request "csv" (1 # 1)%Q Sample.schema).
  reflexivity.
Defined.

Lemma accepted_record_count_bounds_witness :
  (3495 ≤ estimateRecordCount (1 # 1)%Q (Some (averageRecordSizeOf "csv")) ≤ 10485760)%Z.
Proof.
  apply (accepted_record_count_bounds Sample.request "csv" (1 # 1)%Q Sample.schema).
  reflexivity.
Defined.

Lemma blank_name_rejected_witness :
  ∃ status error,
    validate Sample.blank_request = inl (status, error) ∧
    (status = 400 ∨ status = 500)%nat.
Proof.
  apply (blank_name_rejected Sample.blank_request
           [Some (Sample.raw_field "id" "uuid" true);
            Some (Sample.raw_field "  " "string" false)]
           (Sample.raw_field "  " "string" false) "  ").
  - reflexivity.
  - apply elem_of_cons. right. apply elem_of_cons. by left.
  - reflexivity.
  - reflexivity.
Defined.

Lemma accepted_request_enters_stream_witness :
  let n := Z.to_nat (estimateRecordCount (1 # 1)%Q (Some (averageRecordSizeOf "csv"))) in
  ("csv" = "json" ∧
   post_api_generate (λ _, true) false Sample.request 0%nat
   = Streaming (streamJSON (λ _, true) false Sample.schema n 0%nat)) ∨
  ("csv" = "csv" ∧
   post_api_generate (λ _, true) false Sample.request 0%nat
   = Streaming (streamCSV (λ _, true) false Sample.schema n 0%nat)) ∨
  ("csv" = "xml" ∧
   post_api_generate (λ _, true) false Sample.request 0%nat
   = Streaming (streamXML (λ _, true) false Sample.schema n 0%nat)).
Proof.
  apply (accepted_request_enters_stream (H := Sample.libraries) (λ _, true) false
           Sample.request "csv" (1 # 1)%Q Sample.schema 0%nat).
  reflexivity.
Defined.

End AcceptanceExamples.

(* ===================================================================== *)
(** ** Word boundaries and names that are one identifier                  *)
(* ===================================================================== *)

Section Identifiers.
Import Js Rules.

Lemma ascii_not_lead (c : ascii) :
  is_ascii_char c = true → byte_is 196 c = false ∧ byte_is 226 c = false.
Proof. destruct c as [[] [] [] [] [] [] [] []]; done. Qed.

(** On ASCII text [toLowerCase] folds the letters and does nothing else. *)
Lemma toLowerCase_ascii (s : string) :
  is_ascii s = true → toLowerCase s = ascii_lower s.
Proof.
  induction s as [| c1 s1 IH]; [done |].
  intros [H1 Hs]%andb_true_iff.
  destruct (ascii_not_lead c1 H1) as [H196 H226].
  change (ascii_lower (String c1 s1)) with (String (lower_char c1) (ascii_lower s1)).
  rewrite <- (IH Hs). clear IH.
  destruct s1 as [| c2 [| c3 s3]]; simpl; rewrite ?H196, ?H226; reflexivity.
Qed.

Lemma word_char_ascii (c : ascii) : is_word_char c = true → is_ascii_char c = true.
Proof. destruct c as [[] [] [] [] [] [] [] []]; done. Qed.

Lemma identifier_like_ascii (s : string) :
  identifier_like s = true → is_ascii s = true.
Proof.
  induction s as [| c s IH]; simpl; [done |].
  intros [Hc Hs]%andb_true_iff. by rewrite (word_char_ascii c Hc), IH.
Qed.

Lemma lower_char_word (c : ascii) : is_word_char (lower_char c) = is_word_char c.
Proof. destruct c as [[] [] [] [] [] [] [] []]; reflexivity. Qed.

Lemma lower_char_idem (c : ascii) : lower_char (lower_char c) = lower_char c.
Proof. destruct c as [[] [] [] [] [] [] [] []]; reflexivity. Qed.

Lemma ascii_lower_idem (s : string) : ascii_lower (ascii_lower s) = ascii_lower s.
Proof. induction s as [| c s IH]; simpl; [done |]. by rewrite lower_char_idem, IH. Qed.

Lemma identifier_like_lower (s : string) :
  identifier_like s = true → identifier_like (ascii_lower s) = true.
Proof.
  induction s as [| c s IH]; simpl; [done |].
  intros [Hc Hs]%andb_true_iff. by rewrite lower_char_word, Hc, IH.
Qed.

(** After a word character, letters followed by a word boundary match an
    identifier only as a whole. *)
Lemma match_rest_exact (w : string) (prev : option ascii) (s : string) :
  identifier_like s = true → is_word prev = true →
  match_here (lits w ++ [WordBoundary]) prev s = true →
  ascii_lower s = ascii_lower w.
Proof.
  revert prev s. induction w as [| c w IH]; intros prev s Hs Hprev; simpl.
  - rewrite Hprev. destruct s as [| d s]; [done |].
    simpl in Hs. apply andb_true_iff in Hs as [Hd _]. simpl. by rewrite Hd.
  - destruct s as [| d s]; [done |].
    simpl in Hs. apply andb_true_iff in Hs as [Hd Hs].
    intros [Hcd Hrest]%andb_true_iff.
    unfold ci_eqb in Hcd. apply Ascii.eqb_eq in Hcd.
    change (String (lower_char d) (ascii_lower s) = String (lower_char c) (ascii_lower w)).
    by rewrite (IH (Some d) s Hs Hd Hrest), Hcd.
Qed.

Lemma match_word_exact (w : string) (prev : option ascii) (s : string) :
  w ≠ "" → identifier_like s = true →
  match_here (lits w ++ [WordBoundary]) prev s = true →
  ascii_lower s = ascii_lower w.
Proof.
  intros Hw Hs. destruct w as [| c w]; [done |]. simpl.
  destruct s as [| d s]; [done |].
  simpl in Hs. apply andb_true_iff in Hs as [Hd Hs].
  intros [Hcd Hrest]%andb_true_iff.
  unfold ci_eqb in Hcd. apply Ascii.eqb_eq in Hcd.
  change (String (lower_char d) (ascii_lower s) = String (lower_char c) (ascii_lower w)).
  by rewrite (match_rest_exact w (Some d) s Hs Hd Hrest), Hcd.
Qed.

(** Inside an identifier there is no word boundary to start a word at. *)
Lemma search_word_inside (w : string) (prev : option ascii) (s : string) :
  w ≠ "" → identifier_like s = true → is_word prev = true →
  search_from (word w) prev s = false.
Proof.
  intros Hw. revert prev. induction s as [| d s IH]; intros prev Hs Hprev.
  - simpl. rewrite Hprev. destruct w as [| c w]; [done |]. simpl. done.
  - simpl in Hs. apply andb_true_iff in Hs as [Hd Hs].
    simpl. rewrite Hprev, Hd. simpl. by apply IH.
Qed.

(** A whole-word pattern matches an identifier only if, case apart, the
    identifier is the word. *)
Lemma search_word_exact (w s : string) :
  w ≠ "" → identifier_like s = true →
  search_from (word w) None s = true → ascii_lower s = ascii_lower w.
Proof.
  intros Hw Hs. destruct s as [| d s]; simpl.
  - done.
  - pose proof Hs as Hs'. simpl in Hs'. apply andb_true_iff in Hs' as [Hd Hrest].
    rewrite Hd. simpl.
    rewrite (search_word_inside w (Some d) s Hw Hrest Hd), orb_false_r.
    apply (match_word_exact w None (String d s) Hw Hs).
Qed.

(** Without the leading boundary the word matches an identifier only at its
    end. *)
Lemma search_suffix (w : string) (prev : option ascii) (s : string) :
  w ≠ "" → identifier_like s = true →
  search_from (lits w ++ [WordBoundary]) prev s = true →
  ∃ pre, ascii_lower s = pre +:+ ascii_lower w.
Proof.
  intros Hw. revert prev. induction s as [| d s IH]; intros prev Hs.
  - simpl. rewrite orb_false_r. intros Hm. exists "".
    by apply (match_word_exact w prev "" Hw).
  - pose proof Hs as Hs'. simpl in Hs'. apply andb_true_iff in Hs' as [Hd Hrest].
    change (search_from ?p prev (String d s))
      with (match_here p prev (String d s) || search_from p (Some d) s).
    intros [Hm | Hm]%orb_true_iff.
    + exists "". by apply (match_word_exact w prev (String d s) Hw).
    + destruct (IH (Some d) Hrest Hm) as [pre Hpre].
      exists (String (lower_char d) pre). simpl. by rewrite Hpre.
Qed.

Lemma keywords_lower : Forall (λ k, k ≠ "" ∧ ascii_lower k = k) keywords.
Proof. unfold keywords. repeat constructor; done. Qed.

(** X13: for a field whose name is one identifier (letters, digits and
    underscores only, such as firstName or user_id) the name tier applies
    only if the lower-cased name is one of the keywords or ends in
    education; in every other case the declared type alone selects the
    generator. *)
Theorem identifier_names_use_type (prop : FieldSpec) :
  identifier_like (name prop) = true →
  toLowerCase (name prop) ∉ keywords →
  (∀ pre, toLowerCase (name prop) ≠ pre +:+ "education") →
  generateField_rule prop = type_rule (type prop).
Proof.
  intros Hid Hkw Hedu. rewrite generateField_rule_tiers.
  assert (Hnone : name_tier prop = None); [| by rewrite Hnone].
  unfold name_tier.
  rewrite (toLowerCase_ascii _ (identifier_like_ascii _ Hid)) in *.
  apply identifier_like_lower in Hid.
  pose proof (ascii_lower_idem (name prop)) as Hidem.
  set (lower := ascii_lower (name prop)) in *.
  assert (Hw : ∀ k, k ∈ keywords → search_from (word k) None lower = false).
  { intros k Hk. destruct (search_from (word k) None lower) eqn:Hm; [| done].
    pose proof keywords_lower as Hall. rewrite Forall_forall in Hall.
    destruct (Hall k Hk) as [Hne Hlow].
    apply search_word_exact in Hm; [| done | done].
    rewrite Hidem, Hlow in Hm. by rewrite Hm in Hkw. }
  assert (He : search_from (lits "education" ++ [WordBoundary]) None lower = false).
  { destruct (search_from _ None lower) eqn:Hm; [| done].
    apply search_suffix in Hm as [pre Hpre]; [| done | done].
    rewrite Hidem in Hpre. by destruct (Hedu pre). }
  unfold name_table, first_match, test,
    re_name, re_email, re_education, re_phone, re_gender, re_city, re_state,
    re_address, re_country, re_zip, re_company, re_date, re_id, re_salary, re_age,
    re_description, re_url, re_image.
  cbn [existsb]. rewrite He.
  repeat match goal with
         | |- context [search_from (word ?k) None lower] =>
             rewrite (Hw k) by (unfold keywords; rewrite !elem_of_cons; auto 30)
         end.
  reflexivity.
Qed.

(** A name in snake case. *)
Lemma identifier_names_use_type_witness :
  generateField_rule (Sample.field "user_id" "string") = type_rule "string".
Proof.
  apply (identifier_names_use_type (Sample.field "user_id" "string")).
  - reflexivity.
  - apply (bool_decide_unpack _). by vm_compute.
  - intros pre Heq.
    change (toLowerCase (name (Sample.field "user_id" "string"))) with "user_id" in Heq.
    do 7 (destruct pre as [| ? pre];
          [cbv in Heq; discriminate | rewrite append_cons in Heq; injection Heq as _ Heq]).
    destruct pre; cbv in Heq; discriminate.
Defined.

(** Lower-casing the text changes no boundary and no comparison under the
    [/i] flag. *)
Lemma match_here_lower (p : pattern) (prev : option ascii) (s : string) :
  match_here p (lower_char <$> prev) (ascii_lower s) = match_here p prev s.
Proof.
  revert prev s. induction p as [| [| c] p IH]; intros prev s; simpl; [done | |].
  - f_equal; [| apply IH]. f_equal.
    + destruct prev as [d |]; simpl; [apply lower_char_word | done].
    + destruct s as [| d s]; simpl; [done | apply lower_char_word].
  - destruct s as [| d s]; simpl; [done |].
    f_equal; [unfold ci_eqb; by rewrite lower_char_idem | apply (IH (Some d) s)].
Qed.

Lemma search_from_lower (p : pattern) (prev : option ascii) (s : string) :
  search_from p (lower_char <$> prev) (ascii_lower s) = search_from p prev s.
Proof.
  revert prev. induction s as [| d s IH]; intros prev.
  - change (match_here p (lower_char <$> prev) (ascii_lower "") || false
            = match_here p prev "" || false).
    f_equal. apply match_here_lower.
  - change (search_from p (lower_char <$> prev) (ascii_lower (String d s)))
      with (match_here p (lower_char <$> prev) (ascii_lower (String d s))
            || search_from p (lower_char <$> Some d) (ascii_lower s)).
    change (search_from p prev (String d s))
      with (match_here p prev (String d s) || search_from p (Some d) s).
    f_equal; [apply match_here_lower | apply (IH (Some d))].
Qed.

(** X14: on a name made of ASCII characters, a pattern tested under the [/i]
    flag gives the same answer on the name and on its lower-cased form, so
    the rule selected for such a field does not depend on the case of its
    name: the call of [toLowerCase] before the tests changes nothing. *)
Theorem test_ignores_case (re : regex) (s : string) :
  is_ascii s = true →
  test re (toLowerCase s) = test re s.
Proof.
  intros Hs. rewrite (toLowerCase_ascii s Hs).
  unfold test. induction re as [| p re IH]; simpl; [done |].
  f_equal; [apply (search_from_lower p None s) | apply IH].
Qed.

(** A name in mixed case. *)
Lemma test_ignores_case_witness :
  test re_name (toLowerCase "Full Name") = test re_name "Full Name".
Proof. apply test_ignores_case. reflexivity. Defined.

End Identifiers.
